(** * translate_mesh_deep.py: the JSONL translation pipeline

    A shallow embedding of [src/translate_mesh_deep.py]: the translation
    client with its cache and retry loop ([translate_text]), the atomic
    persist of the cache ([save_cache]), the resume tracker
    ([existing_ids]) and the brace-counting stream reader and main loop of
    [process].

    Conventions.
    - A Python [str] is a [string]; a character is an [ascii], read as a
      code point below 256.
    - A value decoded by the [json] module is a [json]; its numbers are the
      integers. A Python [dict] decoded from JSON text is an association
      list in insertion order.
    - The translation cache is what [json.load] gave for the cache file, or
      an empty dict: a [json]. It need not be a dict, and the values of a
      dict need not be texts; [cache_in], [cache_get] and [cache_store] are
      [text in cache], [cache[text]] and [cache[text] = v] on whatever it
      is. [existing_ids], a [set], is a [gset].
    - Durations ([float] seconds) are rationals. [time.sleep] refuses a
      negative duration and one too long to count in nanoseconds; the
      product [base_delay * (2 ** attempt)] refuses a power of two that no
      [float] holds.
    - The script runs in a state monad with exceptions, [M]: the state
      [world] holds the cache, the text written to the output, the disk that
      [save_cache] touches, and the trace of provider calls, sleeps and
      messages.
    - The [json] codec, the translation provider and the faults of the file
      system are not part of the script: they are the fields of [env], and
      every theorem holds for every [env]. The samples at the end of the
      definitions fix some, for the worked examples.
    - The files are given by their contents. What [process] prints at its
      start and end is left out but for the [len(cache)] of line 76, and so
      is the [flush] of the output. Messages are events: they do not
      fail. *)

From Stdlib Require Import QArith Ascii String Sorted DecimalString.
From stdpp Require Import gmap strings list fin_maps.

Local Open Scope Z_scope.
Local Open Scope nat_scope.

(** ** Values of the [json] module *)

#[local] Unset Elimination Schemes.
Inductive json : Type :=
| JNull
| JBool (b : bool)
| JInt (z : Z)
| JStr (s : string)
| JArr (l : list json)
| JObj (d : list (string * json)).
#[local] Set Elimination Schemes.

Abbreviation pydict := (list (string * json)).

(** Python truthiness ([if v:], [not v]). *)
Definition truthy (v : json) : bool :=
  match v with
  | JNull => false
  | JBool b => b
  | JInt z => negb (z =? 0)%Z
  | JStr s => negb (String.eqb s "")
  | JArr l => match l with [] => false | _ => true end
  | JObj d => match d with [] => false | _ => true end
  end.

(** [d.get(k)]: the binding of [k], if any. *)
Fixpoint dict_get (k : string) (d : pydict) : option json :=
  match d with
  | [] => None
  | (k', v) :: d' => if String.eqb k k' then Some v else dict_get k d'
  end.

(** [obj.get(k)] of the source returns [None] for a missing key. *)
Definition get_or_none (k : string) (d : pydict) : json :=
  match dict_get k d with Some v => v | None => JNull end.

(** [d[k] = v]: an existing key keeps its place, a new one goes last. *)
Fixpoint dict_set (k : string) (v : json) (d : pydict) : pydict :=
  match d with
  | [] => [(k, v)]
  | (k', v') :: d' =>
      if String.eqb k k' then (k', v) :: d' else (k', v') :: dict_set k v d'
  end.

(** What a hashable value is as a member of a [set]: [True == 1] and
    [False == 0] there; lists and dicts are unhashable ([TypeError]). *)
Inductive pykey : Type :=
| KNone
| KNum (z : Z)
| KStr (s : string).

Definition py_key (v : json) : option pykey :=
  match v with
  | JNull => Some KNone
  | JBool b => Some (KNum (if b then 1 else 0)%Z)
  | JInt z => Some (KNum z)
  | JStr s => Some (KStr s)
  | JArr _ | JObj _ => None
  end.

#[global] Instance pykey_eq_dec : EqDecision pykey.
Proof. solve_decision. Defined.

#[global] Instance pykey_countable : Countable pykey.
Proof.
  refine (inj_countable'
    (fun k => match k with
              | KNone => inl tt
              | KNum z => inr (inl z)
              | KStr s => inr (inr s)
              end)
    (fun x => match x with
              | inl _ => KNone
              | inr (inl z) => KNum z
              | inr (inr s) => KStr s
              end) _).
  intros []; reflexivity.
Defined.

(** ** Strings *)

(** [str.isspace] on the code points below 256. *)
Definition isspace (c : ascii) : bool :=
  let n := nat_of_ascii c in
  ((9 <=? n) && (n <=? 13)) || ((28 <=? n) && (n <=? 32))
  || (n =? 133) || (n =? 160).

Fixpoint lstrip (s : string) : string :=
  match s with
  | EmptyString => EmptyString
  | String c r => if isspace c then lstrip r else s
  end.

Fixpoint rstrip (s : string) : string :=
  match s with
  | EmptyString => EmptyString
  | String c r =>
      match rstrip r with
      | EmptyString => if isspace c then EmptyString else String c EmptyString
      | r' => String c r'
      end
  end.

(** [text.strip()] *)
Definition strip (s : string) : string := rstrip (lstrip s).

(** [s[:n]] *)
Fixpoint str_take (n : nat) (s : string) : string :=
  match n, s with
  | S n', String c r => String c (str_take n' r)
  | _, _ => EmptyString
  end.

(** [s[n:]] *)
Fixpoint str_drop (n : nat) (s : string) : string :=
  match n, s with
  | S n', String _ r => str_drop n' r
  | _, _ => s
  end.

(** Every character of the text is white space. *)
Fixpoint all_space (s : string) : bool :=
  match s with
  | EmptyString => true
  | String c r => isspace c && all_space r
  end.

(** ** The cache object *)

(** [a in b] for two [str]: [a] occurs in [b]. *)
Fixpoint starts_with (a b : string) : bool :=
  match a, b with
  | EmptyString, _ => true
  | String x a', String y b' => Ascii.eqb x y && starts_with a' b'
  | String _ _, EmptyString => false
  end.

Fixpoint occurs_in (a b : string) : bool :=
  starts_with a b ||
  match b with
  | EmptyString => false
  | String _ b' => occurs_in a b'
  end.

(** [text in cache], line 49. In a dict it asks for a key, in a [str] for a
    substring, in a [list] for an equal element; [None], a [bool] and a
    number hold nothing ([TypeError], here [None]). *)
Definition cache_in (c : json) (text : string) : option bool :=
  match c with
  | JObj d => Some (match dict_get text d with Some _ => true | None => false end)
  | JStr t => Some (occurs_in text t)
  | JArr l =>
      Some (existsb (fun v => match v with
                              | JStr t => String.eqb t text
                              | _ => false
                              end) l)
  | _ => None
  end.

(** [cache[text]], line 50: the value under a key of a dict. A [str] and a
    [list] take no [str] for an index ([TypeError], here [None]). *)
Definition cache_get (c : json) (text : string) : option json :=
  match c with
  | JObj d => dict_get text d
  | _ => None
  end.

(** [cache[text] = v], line 58: the cache afterwards. Only a dict takes
    the assignment ([TypeError], here [None]). *)
Definition cache_store (c : json) (text : string) (v : json) : option json :=
  match c with
  | JObj d => Some (JObj (dict_set text v d))
  | _ => None
  end.

Definition type_name (v : json) : string :=
  match v with
  | JNull => "NoneType"
  | JBool _ => "bool"
  | JInt _ => "int"
  | JStr _ => "str"
  | JArr _ => "list"
  | JObj _ => "dict"
  end.

(** The text of the [TypeError] of line 58. *)
Definition no_item_assignment (c : json) : string :=
  "'" +:+ type_name c +:+ "' object does not support item assignment".

(** [len(cache)], line 76, is defined. *)
Definition sized (c : json) : bool :=
  match c with
  | JStr _ | JArr _ | JObj _ => true
  | _ => false
  end.

(** ** Effects *)

Inductive exn : Type :=
| TypeError
| AttributeError
| ValueError
| OverflowError
| UnicodeEncodeError
| OSError (msg : string)
| ProviderError (msg : string).

(** What the script does that can be seen from outside, in order. *)
Inductive event : Type :=
| EvConstruct                         (* GoogleTranslator(source='en', target='vi') *)
| EvTranslate (text : string)         (* translator.translate(text) *)
| EvSleep (seconds : Q)               (* time.sleep(seconds) *)
| EvRetry (attempt retries : nat) (wait : Q) (msg : string)
| EvFailed (retries : nat) (text : string)
| EvParseError
| EvSaveWarning
| EvProgress (written total_read : nat).

(** A call of the provider returns a value or raises. *)
Inductive response : Type :=
| Returns (t : option string)
| Raises (msg : string).

(** The outside of the script. *)
Record env : Type := {
  (* json.loads(text); None when it raises *)
  json_loads : string -> option json;
  (* json.dumps(obj, ensure_ascii=False) *)
  json_dumps : json -> string;
  (* the text json.dump(cache, f, ensure_ascii=False, indent=2) writes *)
  cache_dumps : json -> string;
  (* json.load(f) of a cache file: None when it raises *)
  cache_loads : string -> option json;
  (* the k-th GoogleTranslator(...): Some msg when it raises *)
  translator_init : nat -> option string;
  (* the k-th translator.translate(text) *)
  translator_translate : nat -> string -> response;
  (* the k-th save_cache: where an I/O error strikes, if one does *)
  save_fault : nat -> option nat;
  (* time.sleep(d) for a d between SLEEP_SAFE and SLEEP_OVER, where
     platforms and rounding decide: the exception, if it raises *)
  sleep_fault : Q -> option exn;
  (* f_out.write(text) after this run wrote out: the exception, if it
     raises (UnicodeEncodeError on a lone surrogate, OSError) *)
  write_fault : string -> string -> option exn
}.

(** The mutable state of a run. [cache] is the one object that [process]
    gets from [load_cache] and hands to every [translate_text]. *)
Record world : Type := mkWorld {
  cache : json;
  n_init : nat;                  (* translators constructed so far *)
  n_call : nat;                  (* provider calls so far *)
  n_save : nat;                  (* save_cache calls so far *)
  fout : string;                 (* text written to f_out by this run *)
  disk : gmap string string;     (* the files save_cache touches *)
  trace : list event
}.

Inductive outcome (A : Type) : Type :=
| Ok (a : A)
| Raise (e : exn).
Arguments Ok {A} a.
Arguments Raise {A} e.

Definition M (A : Type) : Type := world -> outcome A * world.

Definition ret {A} (a : A) : M A := fun w => (Ok a, w).
Definition raise {A} (e : exn) : M A := fun w => (Raise e, w).
Definition bind {A B} (m : M A) (k : A -> M B) : M B :=
  fun w => match m w with
           | (Ok a, w') => k a w'
           | (Raise e, w') => (Raise e, w')
           end.

Notation "x <- m ;; k" := (bind m (fun x => k))
  (at level 100, m at next level, right associativity).
Notation "m ;;; k" := (bind m (fun _ => k))
  (at level 100, right associativity).

Definition emit (e : event) : M unit :=
  fun w => (Ok tt, mkWorld (cache w) (n_init w) (n_call w) (n_save w)
                           (fout w) (disk w) (trace w ++ [e])).

Definition get_cache : M json := fun w => (Ok (cache w), w).

Definition set_cache (c : json) : M unit :=
  fun w => (Ok tt, mkWorld c (n_init w) (n_call w) (n_save w)
                           (fout w) (disk w) (trace w)).

(** The state after more events, and after a call of the provider. *)
Definition logged (w : world) (evs : list event) : world :=
  mkWorld (cache w) (n_init w) (n_call w) (n_save w) (fout w) (disk w)
          (trace w ++ evs).

Definition called (w : world) (text : string) : world :=
  mkWorld (cache w) (n_init w) (S (n_call w)) (n_save w) (fout w) (disk w)
          (trace w ++ [EvTranslate text]).

(** The events a computation added. *)
Definition events_since (w w' : world) : list event :=
  drop (length (trace w)) (trace w').

Definition sleeps_of (evs : list event) : list Q :=
  omap (fun e => match e with EvSleep d => Some d | _ => None end) evs.

Definition calls_of (evs : list event) : list string :=
  omap (fun e => match e with EvTranslate t => Some t | _ => None end) evs.

(** Up to [SLEEP_SAFE] seconds (2^32 milliseconds) [time.sleep] sleeps on
    every platform; from [SLEEP_OVER] seconds on (2^63 nanoseconds) the
    duration does not convert and it raises [OverflowError] on every
    one. *)
Definition SLEEP_SAFE : Q := 4294967.
Definition SLEEP_OVER : Q := 9223372037.

(** The first power of two that [float(2 ** attempt)] refuses. *)
Definition POWER_OVER : nat := 1024.

(** ** The translation client *)

Section Pipeline.

Variable E : env.

(** [time.sleep(d)]. The duration is converted first ([OverflowError]),
    then a negative one is refused ([ValueError]). *)
Definition sleep (d : Q) : M unit :=
  if Qle_bool SLEEP_OVER d || Qle_bool d (- SLEEP_OVER) then
    raise OverflowError
  else
    match (if Qle_bool (- SLEEP_SAFE) d && Qle_bool d SLEEP_SAFE then None
           else sleep_fault E d) with
    | Some e => raise e
    | None => if Qle_bool 0 d then emit (EvSleep d) else raise ValueError
    end.

(** [translator = GoogleTranslator(source='en', target='vi')] *)
Definition new_translator : M unit :=
  fun w =>
    let w' := mkWorld (cache w) (S (n_init w)) (n_call w) (n_save w)
                      (fout w) (disk w) (trace w ++ [EvConstruct]) in
    match translator_init E (n_init w) with
    | Some msg => (Raise (ProviderError msg), w')
    | None => (Ok tt, w')
    end.

(** [translator.translate(text)], with the exception it may raise as a
    value: the call sits in the [try] of the retry loop. *)
Definition call_provider (text : string) : M response :=
  fun w =>
    (Ok (translator_translate E (n_call w) text),
     mkWorld (cache w) (n_init w) (S (n_call w)) (n_save w)
             (fout w) (disk w) (trace w ++ [EvTranslate text])).

(** [base_delay * (2 ** attempt)], where it is a [float]. *)
Definition backoff (base_delay : Q) (attempt : nat) : Q :=
  (base_delay * inject_Z (2 ^ Z.of_nat attempt))%Q.

(** Lines 60-67, the [except] branch of attempt [attempt]: [msg] is the
    text of the exception, [again] the rest of the loop. The product of
    line 62 raises before the message, the sleep after it; both leave
    [translate_text]. *)
Definition on_exception (text : string) (retries : nat) (base_delay : Q)
           (attempt : nat) (msg : string) (again : M json) : M json :=
  if attempt <? retries - 1 then
    if POWER_OVER <=? attempt then raise OverflowError
    else
      let wait := backoff base_delay attempt in
      emit (EvRetry (attempt + 1) retries wait (str_take 40 msg)) ;;;
      sleep wait ;;;
      again
  else
    emit (EvFailed retries (str_take 40 text)) ;;;
    ret JNull.

(** [for attempt in range(retries)], with [todo] iterations left. The
    assignment of line 58 is inside the [try]: on a cache that is no dict
    its [TypeError] is handled as an exception of the provider is. *)
Fixpoint attempts (text : string) (retries : nat) (base_delay : Q)
         (attempt todo : nat) : M json :=
  match todo with
  | 0 => ret JNull
  | S todo' =>
      r <- call_provider text ;;
      match r with
      | Returns (Some t) =>
          if String.eqb t "" then
            attempts text retries base_delay (S attempt) todo'
          else
            c <- get_cache ;;
            match cache_store c text (JStr t) with
            | Some c' => set_cache c' ;;; ret (JStr t)
            | None =>
                on_exception text retries base_delay attempt
                  (no_item_assignment c)
                  (attempts text retries base_delay (S attempt) todo')
            end
      | Returns None => attempts text retries base_delay (S attempt) todo'
      | Raises msg =>
          on_exception text retries base_delay attempt msg
            (attempts text retries base_delay (S attempt) todo')
      end
  end.

(** [translate_text(text, cache, retries, base_delay)]. The argument is
    whatever [obj.get] gave: anything but a [str] has no [strip]. The
    result is a value of Python, [None] being [JNull]: a cached value is
    returned as it is. *)
Definition translate_text (text : json) (retries : nat) (base_delay : Q)
  : M json :=
  if negb (truthy text) then ret JNull
  else
    match text with
    | JStr s =>
        if String.eqb (strip s) "" then ret JNull
        else
          c <- get_cache ;;
          match cache_in c s with
          | None => raise TypeError
          | Some true =>
              match cache_get c s with
              | Some v => ret v
              | None => raise TypeError
              end
          | Some false =>
              new_translator ;;;
              attempts s retries base_delay 0 retries
          end
    | _ => raise AttributeError
    end.

(** ** The cache store *)

(** [os.replace(src, dst)] *)
Definition os_replace (src dst : string) (d : gmap string string)
  : gmap string string :=
  match d !! src with
  | Some c => <[dst := c]> (delete src d)
  | None => d
  end.

(** The states of the disk during a [save_cache] whose serialized cache is
    [content]: before, after [open(tmp, 'w')], after each character
    written, after [os.replace]. A fault [Some 0] strikes at [open],
    [Some (S k)] after [k] characters, or at [os.replace] when the text has
    no more than [k]. *)
Definition disk_states (content path : string) (fault : option nat)
           (d : gmap string string) : list (gmap string string) :=
  let tmp := path +:+ ".tmp" in
  let writes k :=
    map (fun i => <[tmp := str_take i content]> d) (seq 0 (S k)) in
  match fault with
  | Some 0 => [d]
  | Some (S k) => d :: writes (Nat.min k (String.length content))
  | None =>
      d :: writes (String.length content)
        ++ [os_replace tmp path (<[tmp := content]> d)]
  end.

(** [save_cache(cache, path)] *)
Definition save_cache (path : string) : M unit :=
  fun w =>
    let fault := save_fault E (n_save w) in
    let states := disk_states (cache_dumps E (cache w)) path fault (disk w) in
    (Ok tt,
     mkWorld (cache w) (n_init w) (n_call w) (S (n_save w)) (fout w)
             (List.last states (disk w))
             (trace w ++ match fault with
                         | Some _ => [EvSaveWarning]
                         | None => []
                         end)).

(** [load_cache(path)], given the content of the file if there is one:
    what [json.load] gives, whatever it is, and an empty dict when there
    is no file or [json.load] raises. *)
Definition load_cache (file : option string) : json :=
  match file with
  | Some text =>
      match cache_loads E text with
      | Some c => c
      | None => JObj []
      end
  | None => JObj []
  end.

(** ** The resume tracker *)

Definition LF : ascii := "010"%char.
Definition CR : ascii := "013"%char.
Definition newline : string := String LF EmptyString.

(** [for line in of]: the lines of a file opened in text mode, each with
    its end of line as ["\n"] (universal newlines). *)
Fixpoint file_lines_from (line : string) (s : string) : list string :=
  match s with
  | EmptyString => if String.eqb line "" then [] else [line]
  | String c r =>
      if Ascii.eqb c LF then (line +:+ newline) :: file_lines_from "" r
      else if Ascii.eqb c CR then
        match r with
        | String c2 r2 =>
            if Ascii.eqb c2 LF then (line +:+ newline) :: file_lines_from "" r2
            else (line +:+ newline) :: file_lines_from "" r
        | EmptyString => [line +:+ newline]
        end
      else file_lines_from (line +:+ String c EmptyString) r
  end.

Definition file_lines (s : string) : list string := file_lines_from "" s.

(** Lines 89-94: one line of the existing output. Only a dict with a
    hashable ['mesh_id'] adds to the set; a line that does not decode, a
    value that is no dict and an unhashable identifier all end in the
    [except Exception: continue]. *)
Definition note_line (ids : gset pykey) (line : string) : gset pykey :=
  match json_loads E line with
  | Some (JObj d) =>
      match dict_get "mesh_id" d with
      | Some v =>
          match py_key v with
          | Some k => {[k]} ∪ ids
          | None => ids
          end
      | None => ids
      end
  | _ => ids
  end.

(** Lines 83-97: [existing_ids], given the content of the output file if it
    exists. The message of line 95 is left out. *)
Definition existing_ids (resume : bool) (output : option string) : gset pykey :=
  match resume, output with
  | true, Some old => fold_left note_line (file_lines old) ∅
  | _, _ => ∅
  end.

(** ** The stream reader and the main loop *)

Record scanner : Type := mkScanner {
  in_array : bool;
  brace_count : Z;
  current : string
}.

Record counters : Type := mkCounters {
  total_read : nat;
  written : nat
}.

Definition scanner0 : scanner := mkScanner false 0 "".
Definition counters0 : counters := mkCounters 0 0.

(** Lines 113-125 and the [current = ''] of lines 131 and 133: what one
    character does to the scanner, and the text of the object it
    completes, if it completes one. *)
Definition scan_step (ch : ascii) (s : scanner) : scanner * option string :=
  if negb (in_array s) then
    (if Ascii.eqb ch "[" then mkScanner true (brace_count s) (current s) else s,
     None)
  else
    let bc := if Ascii.eqb ch "{" then (brace_count s + 1)%Z else brace_count s in
    let cur := if (0 <? bc)%Z then current s +:+ String ch EmptyString
               else current s in
    if Ascii.eqb ch "}" then
      let bc' := (bc - 1)%Z in
      if (bc' =? 0)%Z then (mkScanner true bc' "", Some cur)
      else (mkScanner true bc' cur, None)
    else (mkScanner true bc cur, None).

(** [f_out.write(text)] *)
Definition write_out (text : string) : M unit :=
  fun w =>
    match write_fault E (fout w) text with
    | Some e => (Raise e, w)
    | None => (Ok tt, mkWorld (cache w) (n_init w) (n_call w) (n_save w)
                              (fout w +:+ text) (disk w) (trace w))
    end.

(** Line 137: [resume and mesh_id and mesh_id in existing_ids]. *)
Definition already_done (resume : bool) (ids : gset pykey) (mesh_id : json)
  : M bool :=
  if resume && truthy mesh_id then
    match py_key mesh_id with
    | Some k => ret (bool_decide (k ∈ ids))
    | None => raise TypeError
    end
  else ret false.

(** Lines 145-146 and 155-156: [if term_vi: obj['term_vi'] = term_vi]. *)
Definition set_if (dst : string) (r : json) (d : pydict) : pydict :=
  if truthy r then dict_set dst r d else d.

(** Lines 142-146 and 152-156: translate the field [src] of [d] into the
    key [dst]. *)
Definition translate_field (src dst : string) (d : pydict) : M pydict :=
  let v := get_or_none src d in
  if truthy v then
    r <- translate_text v 5 1 ;;
    ret (set_if dst r d)
  else ret d.

(** Lines 136-169: the body of the loop for one decoded object. *)
Definition handle_record (cache_path : string) (delay : Q) (resume : bool)
           (ids : gset pykey) (obj : json) (c : counters) : M counters :=
  match obj with
  | JObj d =>
      skip <- already_done resume ids (get_or_none "mesh_id" d) ;;
      if skip : bool then ret c
      else
        d1 <- translate_field "term_en" "term_vi" d ;;
        sleep delay ;;;
        d2 <- translate_field "definition" "definition_vi" d1 ;;
        sleep delay ;;;
        write_out (json_dumps E (JObj d2) +:+ newline) ;;;
        let c' := mkCounters (total_read c) (S (written c)) in
        if written c' mod 50 =? 0 then
          save_cache cache_path ;;;
          emit (EvProgress (written c') (total_read c')) ;;;
          ret c'
        else ret c'
  | _ => raise AttributeError
  end.

(** Lines 127-134: decode the text of a complete object and run the body. *)
Definition on_object (cache_path : string) (delay : Q) (resume : bool)
           (ids : gset pykey) (text : string) (c : counters) : M counters :=
  match json_loads E text with
  | None => emit EvParseError ;;; ret c
  | Some obj =>
      handle_record cache_path delay resume ids obj
                    (mkCounters (S (total_read c)) (written c))
  end.

(** Lines 112-169: one character of a chunk. *)
Definition process_char (cache_path : string) (delay : Q) (resume : bool)
           (ids : gset pykey) (ch : ascii) (st : scanner * counters)
  : M (scanner * counters) :=
  let '(s', done) := scan_step ch (fst st) in
  match done with
  | Some text =>
      c' <- on_object cache_path delay resume ids text (snd st) ;;
      ret (s', c')
  | None => ret (s', snd st)
  end.

(** [for ch in chunk] *)
Fixpoint for_chars (cache_path : string) (delay : Q) (resume : bool)
         (ids : gset pykey) (chunk : string) (st : scanner * counters)
  : M (scanner * counters) :=
  match chunk with
  | EmptyString => ret st
  | String ch rest =>
      st' <- process_char cache_path delay resume ids ch st ;;
      for_chars cache_path delay resume ids rest st'
  end.

(** [f_in.read(65536)] *)
Definition CHUNK : nat := 2 ^ 16.

(** Lines 107-110: [while True] over the chunks of the unread input. The
    loop has no bound of its own; [fuel] counts its iterations. *)
Fixpoint read_loop (fuel : nat) (cache_path : string) (delay : Q)
         (resume : bool) (ids : gset pykey) (unread : string)
         (st : scanner * counters) (w : world)
  : option (outcome (scanner * counters) * world) :=
  match fuel with
  | 0 => None
  | S fuel' =>
      match str_take CHUNK unread with
      | EmptyString => Some (Ok st, w)
      | chunk =>
          match for_chars cache_path delay resume ids chunk st w with
          | (Ok st', w') =>
              read_loop fuel' cache_path delay resume ids
                        (str_drop CHUNK unread) st' w'
          | (Raise e, w') => Some (Raise e, w')
          end
      end
  end.

(** Lines 75 and 100-105: the state in which the loop starts, with the
    cache loaded and nothing written yet. *)
Definition start_world (cache_path : string) (w : world) : world :=
  mkWorld (load_cache (disk w !! cache_path)) (n_init w) (n_call w)
          (n_save w) "" (disk w) (trace w).

(** Line 76: the banner takes [len(cache)]. *)
Definition len_cache : M unit :=
  c <- get_cache ;;
  if sized c then ret tt else raise TypeError.

(** [process(input_path, output_path, cache_path, delay, resume)], given
    the content [input] of the input file and the content [output] of the
    output file if it exists. The three paths name three files. *)
Definition process (input : string) (output : option string)
           (cache_path : string) (delay : Q) (resume : bool) (w : world)
  : option (outcome counters * world) :=
  let ids := existing_ids resume output in
  match len_cache (start_world cache_path w) with
  | (Raise e, w1) => Some (Raise e, w1)
  | (Ok _, w1) =>
      match read_loop (S (String.length input)) cache_path delay resume ids
                      input (scanner0, counters0) w1 with
      | None => None
      | Some (Ok st, w2) =>
          let '(_, w3) := save_cache cache_path w2 in
          Some (Ok (snd st), w3)
      | Some (Raise e, w2) => Some (Raise e, w2)
      end
  end.

(** The output file after a run that got to open it (line 100): opened
    with ['a'] when resuming, with ['w'] otherwise. *)
Definition output_file (resume : bool) (output : option string) (w : world)
  : string :=
  (if resume then default "" output else "") +:+ fout w.

End Pipeline.

(** ** The reader by itself *)

(** The texts that a run of the scanner over [s] hands to [json.loads],
    in order. *)
Fixpoint segments (s : string) (sc : scanner) : list string :=
  match s with
  | EmptyString => []
  | String ch r =>
      let '(sc', done) := scan_step ch sc in
      match done with
      | Some text => text :: segments r sc'
      | None => segments r sc'
      end
  end.

(** The scanner after [s]. *)
Fixpoint scan_end (s : string) (sc : scanner) : scanner :=
  match s with
  | EmptyString => sc
  | String ch r => scan_end r (fst (scan_step ch sc))
  end.

(** The loop of [process] as the specification reads it: the reader yields
    the objects of the array one by one, and the body of the loop runs on
    each. [texts] are the texts of the objects of the array. *)
Fixpoint for_each_object (E : env) (cache_path : string) (delay : Q)
         (resume : bool) (ids : gset pykey) (texts : list string)
         (c : counters) : M counters :=
  match texts with
  | [] => ret c
  | text :: rest =>
      c' <- on_object E cache_path delay resume ids text c ;;
      for_each_object E cache_path delay resume ids rest c'
  end.

(** The loop of [process] over the texts of the objects, after the
    banner. *)
Definition run_objects (E : env) (cache_path : string) (delay : Q)
           (resume : bool) (ids : gset pykey) (texts : list string)
  : M counters :=
  len_cache ;;;
  for_each_object E cache_path delay resume ids texts counters0.

(** [process] as the specification reads it, over the texts of the objects
    of the input array. *)
Definition process_objects (E : env) (texts : list string)
           (output : option string) (cache_path : string) (delay : Q)
           (resume : bool) (w : world) : option (outcome counters * world) :=
  let ids := existing_ids E resume output in
  match run_objects E cache_path delay resume ids texts
                    (start_world E cache_path w) with
  | (Ok c, w2) =>
      let '(_, w3) := save_cache E cache_path w2 in
      Some (Ok c, w3)
  | (Raise e, w2) => Some (Raise e, w2)
  end.

(** Lines 162-169: the end of the body of the loop, which writes the
    record [d2] and counts it. *)
Definition write_record (E : env) (cache_path : string) (d2 : pydict)
           (c : counters) : M counters :=
  write_out E (json_dumps E (JObj d2) +:+ newline) ;;;
  let c' := mkCounters (total_read c) (S (written c)) in
  if written c' mod 50 =? 0 then
    save_cache E cache_path ;;;
    emit (EvProgress (written c') (total_read c')) ;;;
    ret c'
  else ret c'.

(** ** Array files *)

(** From brace depth [depth], the text returns to depth zero at its last
    character and not before. *)
Fixpoint closes (depth : nat) (s : string) : bool :=
  match s with
  | EmptyString => false
  | String c r =>
      if Ascii.eqb c "{" then closes (S depth) r
      else if Ascii.eqb c "}" then
        match depth with
        | 0 => false
        | 1 => String.eqb r ""
        | S d => closes d r
        end
      else
        match depth with
        | 0 => false
        | _ => closes depth r
        end
  end.

(** A text that opens with a brace which its last character closes: the
    text of a JSON object in whose strings no brace occurs. *)
Definition object_text (t : string) : bool := closes 0 t.

Fixpoint lacks (c : ascii) (s : string) : bool :=
  match s with
  | EmptyString => true
  | String x r => negb (Ascii.eqb x c) && lacks c r
  end.

(** What stands between two objects of an array, and after the last. *)
Definition brace_free (s : string) : bool := lacks "{" s && lacks "}" s.

(** The objects of an array, each with the text that follows it (white
    space, the comma, the closing bracket). *)
Fixpoint array_items (items : list (string * string)) : string :=
  match items with
  | [] => ""
  | (t, gap) :: rest => t +:+ gap +:+ array_items rest
  end.

(** A file that holds one array: [pre] before the opening bracket, [gap]
    after it. *)
Definition array_file (pre gap : string) (items : list (string * string))
  : string :=
  pre +:+ "[" +:+ gap +:+ array_items items.

Definition well_formed_array (pre gap : string)
           (items : list (string * string)) : Prop :=
  lacks "["%char pre = true /\ brace_free gap = true /\
  List.Forall
    (fun it => object_text (fst it) = true /\ brace_free (snd it) = true)
    items.


(** ** The text of a value *)

Definition dq : string := String "034" EmptyString.

Definition quoted (s : string) : string := dq +:+ s +:+ dq.

(** The escapes of [json.dumps(..., ensure_ascii=False)]. *)
Definition backslash : string := String "092" EmptyString.

Definition hex_digit (n : nat) : string :=
  String (ascii_of_nat (if n <? 10 then 48 + n else 87 + n)) EmptyString.

Definition escape_char (c : ascii) : string :=
  let n := nat_of_ascii c in
  if n =? 34 then backslash +:+ dq
  else if n =? 92 then backslash +:+ backslash
  else if n =? 8 then backslash +:+ "b"
  else if n =? 12 then backslash +:+ "f"
  else if n =? 10 then backslash +:+ "n"
  else if n =? 13 then backslash +:+ "r"
  else if n =? 9 then backslash +:+ "t"
  else if n <? 32 then
    backslash +:+ "u00" +:+ hex_digit (n / 16) +:+ hex_digit (n mod 16)
  else String c EmptyString.

Fixpoint escape (s : string) : string :=
  match s with
  | EmptyString => EmptyString
  | String c r => escape_char c +:+ escape r
  end.

(** The text of a string. *)
Definition py_str (s : string) : string := dq +:+ escape s +:+ dq.

(** [json.dumps(v, ensure_ascii=False)], with the default separators. *)
Fixpoint py_dumps (v : json) : string :=
  match v with
  | JNull => "null"
  | JBool b => if b then "true" else "false"
  | JInt z => NilZero.string_of_int (Z.to_int z)
  | JStr s => py_str s
  | JArr l =>
      "[" +:+
      (fix elems (l : list json) : string :=
         match l with
         | [] => ""
         | x :: r =>
             py_dumps x +:+ match r with [] => "" | _ => ", " +:+ elems r end
         end) l
      +:+ "]"
  | JObj d =>
      "{" +:+
      (fix membs (d : pydict) : string :=
         match d with
         | [] => ""
         | (k, x) :: r =>
             py_str k +:+ ": " +:+ py_dumps x +:+
             match r with [] => "" | _ => ", " +:+ membs r end
         end) d
      +:+ "}"
  end.


(** No string of the value, key or not, holds a brace. *)
Fixpoint plain_json (v : json) : bool :=
  match v with
  | JStr s => brace_free s
  | JArr l =>
      (fix all (l : list json) : bool :=
         match l with
         | [] => true
         | x :: r => plain_json x && all r
         end) l
  | JObj d =>
      (fix all (d : pydict) : bool :=
         match d with
         | [] => true
         | (k, x) :: r => brace_free k && plain_json x && all r
         end) d
  | _ => true
  end.

(** The brace depth after [s], from a depth that [s] never brings back to
    zero. *)
Fixpoint level (depth : nat) (s : string) : option nat :=
  match s with
  | EmptyString => Some depth
  | String c r =>
      if Ascii.eqb c "{" then level (S depth) r
      else if Ascii.eqb c "}" then
        match depth with
        | S (S d) => level (S d) r
        | _ => None
        end
      else
        match depth with
        | 0 => None
        | _ => level depth r
        end
  end.

(** The elements of a list and the members of a dict, as [py_dumps] writes
    them. *)
Fixpoint py_elements (l : list json) : string :=
  match l with
  | [] => ""
  | x :: r => py_dumps x +:+ match r with [] => "" | _ => ", " +:+ py_elements r end
  end.

Fixpoint py_members (d : pydict) : string :=
  match d with
  | [] => ""
  | (k, x) :: r =>
      py_str k +:+ ": " +:+ py_dumps x +:+
      match r with [] => "" | _ => ", " +:+ py_members r end
  end.

(** The text of a value inside an object leaves the depth as it was. *)
Definition keeps_level (x : json) : Prop :=
  forall depth,
    plain_json x = true -> level (S depth) (py_dumps x) = Some (S depth).



(** ** Predicates of the statements *)

Definition raises (r : response) : bool :=
  match r with Raises _ => true | Returns _ => false end.

(** An answer of the provider that line 57 takes for no translation. *)
Definition falsy_answer (r : response) : bool :=
  match r with
  | Returns None => true
  | Returns (Some t) => String.eqb t ""
  | Raises _ => false
  end.


(** The cache is a dict. *)
Definition is_dict (c : json) : bool :=
  match c with JObj _ => true | _ => false end.

(** Every value of the cache is a non-empty string. *)
Definition cache_nonempty (c : json) : Prop :=
  forall k v, cache_get c k = Some v -> exists t, v = JStr t /\ t <> "".

(** A duration that [time.sleep] takes on every platform. *)
Definition can_sleep (d : Q) : Prop := (0 <= d)%Q /\ (d <= SLEEP_SAFE)%Q.

(** The first [n] waits of the retry loop can be computed and slept. *)
Definition can_back_off (b : Q) (n : nat) : Prop :=
  n <= POWER_OVER /\ (0 <= b)%Q /\
  forall k, k < n -> (backoff b k <= SLEEP_SAFE)%Q.

(** Every [f_out.write] goes through. *)
Definition writes_ok (E : env) : Prop :=
  forall out text, write_fault E out text = None.

(** What a computation leaves alone when it only talks to the provider. *)
Definition same_files (w w' : world) : Prop :=
  fout w' = fout w /\ disk w' = disk w /\ n_save w' = n_save w.

(** A value [translate_text] accepts: a string, or something falsy that
    the guard [if term_en:] keeps away from it. *)
Definition text_like (v : json) : bool :=
  match v with
  | JStr _ => true
  | _ => negb (truthy v)
  end.

(** The key [k] of the written record: as it was read, or bound to a
    truthy value. *)
Definition vi_ok (k : string) (d d' : pydict) : Prop :=
  dict_get k d' = dict_get k d \/
  exists r, truthy r = true /\ dict_get k d' = Some r.

(** The written record [d'] against the record [d] as it was read. *)
Definition translated_from (d d' : pydict) : Prop :=
  (forall k, k <> "term_vi" -> k <> "definition_vi" ->
             dict_get k d' = dict_get k d) /\
  vi_ok "term_vi" d d' /\ vi_ok "definition_vi" d d'.

(** The key [k] of the written record: as it was read, or bound to a
    non-empty string. *)
Definition vi_text (k : string) (d d' : pydict) : Prop :=
  dict_get k d' = dict_get k d \/
  exists t, t <> "" /\ dict_get k d' = Some (JStr t).

(** The record [d'] that the body of the loop makes of [d] from the state
    [w]: [d] with [term_vi] bound to what [translate_text] returns for
    [term_en] if that is truthy, and then, after the sleep, [definition_vi]
    to what it returns for [definition]. *)
Definition translates (E : env) (delay : Q) (w : world) (d d' : pydict)
  : Prop :=
  exists r1 w1 r2 w2,
    translate_text E (get_or_none "term_en" d) 5 1 w = (Ok r1, w1) /\
    translate_text E (get_or_none "definition" d) 5 1
                   (snd (sleep E delay w1)) = (Ok r2, w2) /\
    d' = set_if "definition_vi" r2 (set_if "term_vi" r1 d).

(** What the retry loop returns and how it leaves the cache. *)
Definition attempts_post (s : string) (w : world) (r : outcome json)
           (w' : world) : Prop :=
  same_files w w' /\ (exists evs, trace w' = trace w ++ evs) /\
  match r with
  | Ok v =>
      (v = JNull /\ cache w' = cache w) \/
      (exists t, v = JStr t /\ t <> "" /\
                 cache_store (cache w) s (JStr t) = Some (cache w'))
  | Raise _ => cache w' = cache w
  end.


(** The cache file in a state of the disk: as it was, or whole. *)
Definition whole_or_old (path content : string) (d0 d : gmap string string)
  : Prop :=
  d !! path = d0 !! path \/ d !! path = Some content.


(** Records already in the output: only [total_read] moves. *)
Definition already_written (E : env) (ids : gset pykey) (text : string)
  : Prop :=
  exists d k,
    json_loads E text = Some (JObj d) /\
    truthy (get_or_none "mesh_id" d) = true /\
    py_key (get_or_none "mesh_id" d) = Some k /\ k ∈ ids.


(** ** Sample data *)

Definition rec_A : pydict := [("mesh_id", JStr "A"); ("term_en", JStr "Abdomen")].
Definition rec_B : pydict := [("mesh_id", JStr "B"); ("term_en", JStr "Back")].
Definition rec_C : pydict := [("mesh_id", JStr "C"); ("term_en", JStr "Heart")].
Definition rec_null : pydict := [("mesh_id", JNull); ("term_en", JStr "Heart")].
Definition rec_number : pydict := [("mesh_id", JStr "N"); ("term_en", JInt 5)].
Definition rec_list : pydict := [("mesh_id", JArr [JStr "L"])].
Definition rec_brace : pydict := [("term_en", JStr "}")].
Definition rec_kept : pydict := [("term_en", JStr "Heart"); ("term_vi", JStr "")].
Definition rec_twice : pydict :=
  [("term_en", JStr "Heart"); ("definition", JStr "Heart")].

Definition sample_records : list pydict :=
  [rec_A; rec_B; rec_C; rec_brace; rec_kept; rec_null; rec_number; rec_list].

Definition sample_table : list (string * json) :=
  map (fun d => (py_dumps (JObj d), JObj d)) sample_records.

(** A stand-in for [json.loads]: the texts of the table, with white space
    around them; it raises on everything else. *)
Definition sample_loads (text : string) : option json :=
  snd <$> List.find (fun p => String.eqb (fst p) (strip text)) sample_table.

(** An environment without a fault: every cache file reads as [file], every
    save and every write goes through. The cache is written as [py_dumps]
    writes a value, without the indentation. *)
Definition sample_env_with (file : option json) (init : nat -> option string)
           (respond : nat -> string -> response) : env :=
  {| json_loads := sample_loads;
     json_dumps := py_dumps;
     cache_dumps := py_dumps;
     cache_loads := fun _ => file;
     translator_init := init;
     translator_translate := respond;
     save_fault := fun _ => None;
     sleep_fault := fun _ => None;
     write_fault := fun _ _ => None |}.

Definition sample_env (init : nat -> option string)
           (respond : nat -> string -> response) : env :=
  sample_env_with None init respond.


(** A provider that raises [n] times and then answers [t]. *)
Definition flaky (n : nat) (t : string) : nat -> string -> response :=
  fun k _ => if k <? n then Raises "timeout" else Returns (Some t).

(** A provider that answers nothing [n] times and then answers [t]. *)
Definition mute (n : nat) (t : string) : nat -> string -> response :=
  fun k _ => if k <? n then Returns (Some "") else Returns (Some t).

(** A provider that always raises. *)
Definition down : nat -> string -> response := fun _ _ => Raises "timeout".

Definition builds : nat -> option string := fun _ => None.

Definition world0 : world := mkWorld (JObj []) 0 0 0 "" ∅ [].

Definition world_with (c : json) : world :=
  mkWorld c 0 0 0 "" ∅ [].

(** A state of the disk with a cache file. *)
Definition world_on_disk : world :=
  mkWorld (JObj []) 0 0 0 "" {[ "cache.json" := "?" ]} [].

(** An array of the three sample records. *)
Definition items_AB : list (string * string) :=
  [(py_dumps (JObj rec_A), "," +:+ newline);
   (py_dumps (JObj rec_B), "," +:+ newline)].

Definition input_ABC : string :=
  array_file "" newline
    (items_AB ++ [(py_dumps (JObj rec_C), newline +:+ "]")]).

(** An output file that holds the records A and B. *)
Definition output_AB : string :=
  py_dumps (JObj rec_A) +:+ newline +:+
  py_dumps (JObj rec_B) +:+ newline.

(** An output file that holds the record without identifier. *)
Definition output_null : string := py_dumps (JObj rec_null) +:+ newline.




(** An array of two objects, the first with a brace in a string. *)
Definition input_brace : string :=
  array_file "" ""
    [(py_dumps (JObj rec_brace), ", ");
     (py_dumps (JObj rec_C), "]")].


(** ** Predicates of the further properties *)

(** From [w] to [w']: the cache is the same object, a dict that kept its
    entries or something else that stayed as it was, and the texts sent to
    the provider in between were not found in the cache of [w]. *)
Definition cache_kept (c c' : json) : Prop :=
  c' = c \/
  exists d d', c = JObj d /\ c' = JObj d' /\
    forall s v, dict_get s d = Some v -> dict_get s d' = Some v.

Definition grows (w w' : world) : Prop :=
  cache_kept (cache w) (cache w') /\
  exists evs, trace w' = trace w ++ evs /\
              List.Forall (fun s => cache_in (cache w) s = Some false)
                          (calls_of evs).

(** Every value of the cache is a string. *)
Definition cache_texts (c : json) : Prop :=
  forall k v, cache_get c k = Some v -> exists t, v = JStr t.

(** The written record [d'] against the record [d] as it was read, when
    the translations are texts. *)
Definition translated_text_from (d d' : pydict) : Prop :=
  (forall k, k <> "term_vi" -> k <> "definition_vi" ->
             dict_get k d' = dict_get k d) /\
  vi_text "term_vi" d d' /\ vi_text "definition_vi" d d'.

(** From [w] to [w'] the values of the cache stay strings. *)
Definition keeps_texts (w w' : world) : Prop :=
  cache_texts (cache w) -> cache_texts (cache w').

(** The record [d'] was made of [d] from some state of the run, in which
    the values of the cache were strings if [T] holds. *)
Definition written_from (E : env) (delay : Q) (T : Prop) (d d' : pydict)
  : Prop :=
  exists w0, (T -> cache_texts (cache w0)) /\ translates E delay w0 d d'.

(** The lines that [process] writes for the records [ds]. *)
Fixpoint jsonl (E : env) (ds : list pydict) : string :=
  match ds with
  | [] => ""
  | d :: rest => json_dumps E (JObj d) +:+ newline +:+ jsonl E rest
  end.

(** The texts that decode, and the records among them. *)
Definition decodes (E : env) (text : string) : bool :=
  match json_loads E text with Some _ => true | None => false end.

Definition decoded (E : env) (texts : list string) : list pydict :=
  omap (fun t => match json_loads E t with
                 | Some (JObj d) => Some d
                 | _ => None
                 end) texts.

(** Line 137 as a test on the record. *)
Definition skips (resume : bool) (ids : gset pykey) (d : pydict) : bool :=
  resume && truthy (get_or_none "mesh_id" d) &&
  match py_key (get_or_none "mesh_id" d) with
  | Some k => bool_decide (k ∈ ids)
  | None => false
  end.

(** A field that needs no provider: falsy, blank, or a key of the cache. *)
Definition settled (c : json) (v : json) : Prop :=
  match v with
  | JStr s => all_space s = true \/ is_Some (cache_get c s)
  | _ => truthy v = false
  end.

(** A text without an end of line in it. *)
Definition one_line (s : string) : bool := lacks LF s && lacks CR s.

(** A computation that relates the state it ends in to the state it
    started in by [R], however it ends. *)
Definition preserves {A} (R : world -> world -> Prop) (m : M A) : Prop :=
  forall w r w', m w = (r, w') -> R w w'.

(** A computation whose result and final state are related to the state
    it started in by [Q]. *)
Definition ensures {A} (Q : world -> outcome A -> world -> Prop) (m : M A)
  : Prop :=
  forall w r w', m w = (r, w') -> Q w r w'.

(** No [save_cache] between [w] and [w']. *)
Definition same_saves (w w' : world) : Prop := n_save w' = n_save w.

(** The calls of [save_cache] that handling a record adds: one whenever
    [written] reaches a multiple of 50. *)
Definition saves_by_fifty (c : counters) (w : world) (r : outcome counters)
           (w' : world) : Prop :=
  match r with
  | Ok c' => n_save w' + written c / 50 = n_save w + written c' / 50 /\
             written c <= written c'
  | Raise _ => n_save w' = n_save w
  end.

(** A sample codec of the cache, exact on the empty cache, with a provider
    that answers nothing. *)
Definition codec_env : env :=
  {| json_loads := sample_loads;
     json_dumps := py_dumps;
     cache_dumps := fun _ => "{}";
     cache_loads := fun t => if String.eqb t "{}" then Some (JObj []) else None;
     translator_init := builds;
     translator_translate := fun _ _ => Returns (Some "");
     save_fault := fun _ => None;
     sleep_fault := fun _ => None;
     write_fault := fun _ _ => None |}.


(** * Properties *)

(** ** Strings *)

Lemma lstrip_all_space s : all_space s = true -> lstrip s = "".
Proof.
  induction s as [|c r IH]; simpl; [done|].
  intros [Hc Hr]%andb_prop. rewrite Hc. auto.
Qed.

Lemma all_space_strip s : all_space s = true -> strip s = "".
Proof. intros H. unfold strip. by rewrite lstrip_all_space. Qed.

Lemma rstrip_empty s : rstrip s = "" -> all_space s = true.
Proof.
  induction s as [|c r IH]; simpl; [done|].
  destruct (rstrip r) eqn:Hr; [|done].
  destruct (isspace c); [auto|done].
Qed.

Lemma lstrip_empty s : all_space (lstrip s) = true -> all_space s = true.
Proof.
  induction s as [|c r IH]; simpl; [done|].
  destruct (isspace c) eqn:Hc; simpl; [auto|].
  rewrite Hc. done.
Qed.

Lemma strip_empty_iff s : strip s = "" <-> all_space s = true.
Proof.
  split; [|apply all_space_strip].
  intros H. by apply lstrip_empty, rstrip_empty.
Qed.

Lemma eqb_strip_false s : all_space s = false -> String.eqb (strip s) "" = false.
Proof.
  intros H. apply String.eqb_neq. intros Hs%strip_empty_iff. congruence.
Qed.

Lemma all_space_false_truthy s : all_space s = false -> truthy (JStr s) = true.
Proof. destruct s; simpl; [discriminate|done]. Qed.

Lemma string_cons_app c (a b : string) : String c a +:+ b = String c (a +:+ b).
Proof. reflexivity. Qed.

Lemma string_nil_app (b : string) : "" +:+ b = b.
Proof. reflexivity. Qed.

Lemma str_take_drop n s : str_take n s +:+ str_drop n s = s.
Proof.
  revert s. induction n as [|n IH]; intros [|c r]; simpl; try done.
  by rewrite string_cons_app, IH.
Qed.

Lemma str_take_empty n s : 0 < n -> str_take n s = "" -> s = "".
Proof. destruct n; [lia|]. by destruct s. Qed.

Lemma str_drop_length n s :
  String.length (str_drop n s) = String.length s - n.
Proof.
  revert s. induction n as [|n IH]; intros [|c r]; simpl; try done.
Qed.

Lemma string_app_assoc (a b c : string) : (a +:+ b) +:+ c = a +:+ (b +:+ c).
Proof.
  induction a as [|x a IH]; [done|].
  by rewrite !string_cons_app, IH.
Qed.

Lemma string_app_empty_r (a : string) : a +:+ "" = a.
Proof.
  induction a as [|x a IH]; [done|].
  by rewrite string_cons_app, IH.
Qed.

Lemma string_app_length (a b : string) :
  String.length (a +:+ b) = String.length a + String.length b.
Proof.
  induction a as [|x a IH]; [done|].
  rewrite string_cons_app. simpl. by rewrite IH.
Qed.


(** ** Dicts *)

Lemma dict_get_set_eq k v d : dict_get k (dict_set k v d) = Some v.
Proof.
  induction d as [|[k' v'] d IH]; simpl.
  - by rewrite String.eqb_refl.
  - destruct (String.eqb k k') eqn:Hk; simpl; rewrite Hk; [done|exact IH].
Qed.

Lemma dict_get_set_ne k k' v d :
  k <> k' -> dict_get k (dict_set k' v d) = dict_get k d.
Proof.
  intros Hne. induction d as [|[k0 v0] d IH]; simpl.
  - apply String.eqb_neq in Hne. by rewrite Hne.
  - destruct (String.eqb k' k0) eqn:Hk; simpl.
    + apply String.eqb_eq in Hk as <-.
      apply String.eqb_neq in Hne. by rewrite Hne.
    + by rewrite IH.
Qed.


(** ** Back-off delays and sleeps *)

Lemma backoff_nonneg b k : (0 <= b)%Q -> (0 <= backoff b k)%Q.
Proof.
  intros Hb. unfold backoff.
  apply Qmult_le_0_compat; [done|].
  change 0%Q with (inject_Z 0). rewrite <- Zle_Qle. lia.
Qed.

Lemma backoff_lt b j k : (0 < b)%Q -> j < k -> (backoff b j < backoff b k)%Q.
Proof.
  intros Hb Hjk. unfold backoff.
  apply Qmult_lt_l; [done|]. rewrite <- Zlt_Qlt.
  apply Z.pow_lt_mono_r; lia.
Qed.

Lemma backoff_sorted b start n :
  (0 < b)%Q -> StronglySorted Qlt (map (backoff b) (seq start n)).
Proof.
  intros Hb. revert start. induction n as [|n IH]; intros start; simpl.
  - constructor.
  - constructor; [apply IH|].
    apply List.Forall_forall. intros q [k [<- Hk]]%in_map_iff.
    apply in_seq in Hk. apply backoff_lt; [done|lia].
Qed.

Ltac munfold :=
  unfold bind, ret, raise, emit, get_cache, set_cache, call_provider,
    new_translator in *.

Ltac wsimpl :=
  cbn [cache n_init n_call n_save fout disk trace fst snd
       total_read written in_array brace_count current] in *.

Lemma events_since_app w w' evs :
  trace w' = trace w ++ evs -> events_since w w' = evs.
Proof. intros H. unfold events_since. rewrite H. apply drop_app_length. Qed.

Lemma sleeps_of_app a b : sleeps_of (a ++ b) = sleeps_of a ++ sleeps_of b.
Proof. apply omap_app. Qed.

Lemma calls_of_app a b : calls_of (a ++ b) = calls_of a ++ calls_of b.
Proof. apply omap_app. Qed.

(** A sleep adds its event, or raises and leaves the state as it was. *)
Lemma sleep_cases E d w :
  sleep E d w = (Ok tt, logged w [EvSleep d]) \/
  exists e, sleep E d w = (Raise e, w).
Proof.
  unfold sleep.
  destruct (Qle_bool SLEEP_OVER d || Qle_bool d (- SLEEP_OVER));
    [right; by eexists|].
  destruct (if Qle_bool (- SLEEP_SAFE) d && Qle_bool d SLEEP_SAFE
            then None else sleep_fault E d); [right; by eexists|].
  destruct (Qle_bool 0 d); [by left|right; by eexists].
Qed.

Lemma sleep_ok E d w :
  can_sleep d -> sleep E d w = (Ok tt, logged w [EvSleep d]).
Proof.
  intros [H0 Hsafe]. unfold sleep.
  assert (H1 : Qle_bool SLEEP_OVER d = false).
  { apply not_true_is_false. intros H%Qle_bool_iff.
    assert (Hlt : (SLEEP_SAFE < SLEEP_OVER)%Q) by reflexivity.
    apply (Qlt_irrefl SLEEP_SAFE).
    eapply Qlt_le_trans; [exact Hlt|]. by eapply Qle_trans. }
  assert (H2 : Qle_bool d (- SLEEP_OVER) = false).
  { apply not_true_is_false. intros H%Qle_bool_iff.
    assert (Hlt : (- SLEEP_OVER < 0)%Q) by reflexivity.
    apply (Qlt_irrefl 0). eapply Qle_lt_trans; [|exact Hlt].
    by eapply Qle_trans. }
  assert (H3 : Qle_bool (- SLEEP_SAFE) d = true).
  { apply Qle_bool_iff. eapply Qle_trans; [|exact H0]. discriminate. }
  apply Qle_bool_iff in H0, Hsafe.
  by rewrite H1, H2, H3, Hsafe, H0.
Qed.

Lemma can_sleep_backoff b n k :
  can_back_off b n -> k < n -> can_sleep (backoff b k).
Proof.
  intros (_ & Hb & Hall) Hk. split; [by apply backoff_nonneg|by apply Hall].
Qed.

(** The waits of [process], which calls with 5 retries and 1 second. *)
Lemma can_back_off_default : can_back_off 1 4.
Proof.
  split; [unfold POWER_OVER; lia|]. split; [discriminate|].
  intros k Hk. destruct k as [|[|[|[|k]]]]; [discriminate..|lia].
Qed.

(** ** The cache object *)

Lemma cache_in_get c s :
  cache_in c s = Some false -> cache_get c s = None.
Proof.
  destruct c as [| | | | |d]; cbn; try done.
  by destruct (dict_get s d).
Qed.

Lemma cache_get_in c s v :
  cache_get c s = Some v -> cache_in c s = Some true.
Proof.
  destruct c as [| | | | |d]; cbn; try done. by intros ->.
Qed.

Lemma cache_in_dict d s :
  cache_in (JObj d) s =
  Some (match dict_get s d with Some _ => true | None => false end).
Proof. reflexivity. Qed.

(** ** The translation client *)

Section ClientFacts.

Variable E : env.

Lemma on_exception_eq s retries b attempt msg again w :
  on_exception E s retries b attempt msg again w =
  if attempt <? retries - 1 then
    if POWER_OVER <=? attempt then (Raise OverflowError, w)
    else
      match sleep E (backoff b attempt)
                  (logged w [EvRetry (attempt + 1) retries (backoff b attempt)
                                     (str_take 40 msg)]) with
      | (Ok _, w1) => again w1
      | (Raise e, w1) => (Raise e, w1)
      end
  else (Ok JNull, logged w [EvFailed retries (str_take 40 s)]).
Proof.
  unfold on_exception. destruct (attempt <? retries - 1); [|done].
  by destruct (POWER_OVER <=? attempt).
Qed.

Lemma logged_logged w a b : logged (logged w a) b = logged w (a ++ b).
Proof. unfold logged. cbn [cache n_init n_call n_save fout disk trace].
  by rewrite <- app_assoc. Qed.

(** The [except] branch: it raises, goes on with the loop after a message
    and a sleep, or gives up after a message. *)
Lemma on_exception_cases s retries b attempt msg again w :
  (exists e w', on_exception E s retries b attempt msg again w = (Raise e, w')
                /\ (w' = w \/
                    w' = logged w [EvRetry (attempt + 1) retries
                                     (backoff b attempt) (str_take 40 msg)])) \/
  (attempt < retries - 1 /\
   on_exception E s retries b attempt msg again w =
   again (logged w [EvRetry (attempt + 1) retries (backoff b attempt)
                            (str_take 40 msg);
                    EvSleep (backoff b attempt)])) \/
  (retries - 1 <= attempt /\
   on_exception E s retries b attempt msg again w =
   (Ok JNull, logged w [EvFailed retries (str_take 40 s)])).
Proof.
  rewrite on_exception_eq. destruct (attempt <? retries - 1) eqn:Hlt.
  - apply Nat.ltb_lt in Hlt.
    destruct (POWER_OVER <=? attempt); [left; eexists _, _; split; [done|by left]|].
    match goal with |- context [sleep E ?d ?w0] =>
      destruct (sleep_cases E d w0) as [->|[e ->]]
    end.
    + right. left. split; [done|]. by rewrite logged_logged.
    + left. eexists _, _. split; [done|]. by right.
  - apply Nat.ltb_ge in Hlt. right. right. by split.
Qed.

Lemma on_exception_goes_on s retries b attempt msg again w :
  attempt < retries - 1 -> attempt < POWER_OVER ->
  can_sleep (backoff b attempt) ->
  on_exception E s retries b attempt msg again w =
  again (logged w [EvRetry (attempt + 1) retries (backoff b attempt)
                           (str_take 40 msg);
                   EvSleep (backoff b attempt)]).
Proof.
  intros Hlt Hpow Hsleep. rewrite on_exception_eq.
  apply Nat.ltb_lt in Hlt. rewrite Hlt.
  apply Nat.leb_gt in Hpow. rewrite Hpow.
  by rewrite (sleep_ok E _ _ Hsleep), logged_logged.
Qed.

Lemma on_exception_gives_up s retries b attempt msg again w :
  retries - 1 <= attempt ->
  on_exception E s retries b attempt msg again w =
  (Ok JNull, logged w [EvFailed retries (str_take 40 s)]).
Proof.
  intros Hge. rewrite on_exception_eq. apply Nat.ltb_ge in Hge. by rewrite Hge.
Qed.

(** One turn of the retry loop. *)
Lemma attempts_step s retries b attempt todo w :
  attempts E s retries b attempt (S todo) w =
  match translator_translate E (n_call w) s with
  | Returns (Some t) =>
      if String.eqb t "" then
        attempts E s retries b (S attempt) todo (called w s)
      else
        match cache_store (cache w) s (JStr t) with
        | Some c' =>
            (Ok (JStr t),
             mkWorld c' (n_init w) (S (n_call w)) (n_save w) (fout w) (disk w)
                     (trace w ++ [EvTranslate s]))
        | None =>
            on_exception E s retries b attempt (no_item_assignment (cache w))
              (attempts E s retries b (S attempt) todo) (called w s)
        end
  | Returns None => attempts E s retries b (S attempt) todo (called w s)
  | Raises msg =>
      on_exception E s retries b attempt msg
        (attempts E s retries b (S attempt) todo) (called w s)
  end.
Proof.
  cbn [attempts]. unfold bind at 1. unfold call_provider at 1.
  destruct (translator_translate E (n_call w) s) as [[t|]|msg]; [|done..].
  destruct (String.eqb t ""); [done|].
  unfold bind at 1, get_cache at 1. cbn [cache].
  destruct (cache_store (cache w) s (JStr t)); done.
Qed.

Lemma attempts_post_refl s w : attempts_post s w (Ok JNull) w.
Proof.
  split; [done|]. split; [exists []; by rewrite app_nil_r|]. by left.
Qed.

Lemma attempts_post_after s w w1 r w' :
  cache w1 = cache w -> same_files w w1 ->
  (exists evs, trace w1 = trace w ++ evs) ->
  attempts_post s w1 r w' -> attempts_post s w r w'.
Proof.
  intros Hc (Hf1 & Hf2 & Hf3) [e1 He1] ((Hg1 & Hg2 & Hg3) & [e2 He2] & Hr).
  split; [|split].
  - unfold same_files. by rewrite Hg1, Hg2, Hg3.
  - exists (e1 ++ e2). by rewrite He2, He1, app_assoc.
  - by rewrite Hc in Hr.
Qed.


(** The retry loop only adds events, leaves the files alone, and changes
    the cache by at most the entry of the translation it returns. *)
Lemma attempts_frame s retries b attempt todo w :
  let '(r, w') := attempts E s retries b attempt todo w in
  attempts_post s w r w'.
Proof.
  revert attempt w. induction todo as [|todo IH]; intros attempt w.
  { apply attempts_post_refl. }
  assert (Hagain : forall evs,
    let '(r, w') := attempts E s retries b (S attempt) todo
                      (logged (called w s) evs) in
    attempts_post s w r w').
  { intros evs. specialize (IH (S attempt) (logged (called w s) evs)).
    destruct (attempts E s retries b (S attempt) todo _) as [r w'].
    eapply attempts_post_after; [| | |exact IH]; [done|done|].
    eexists. cbn [logged called trace]. rewrite <- app_assoc. reflexivity. }
  assert (Hagain0 :
    let '(r, w') := attempts E s retries b (S attempt) todo (called w s) in
    attempts_post s w r w').
  { specialize (Hagain []). unfold logged in Hagain. cbn [trace] in Hagain.
    rewrite app_nil_r in Hagain. exact Hagain. }
  assert (Hexc : forall msg,
    let '(r, w') := on_exception E s retries b attempt msg
                      (attempts E s retries b (S attempt) todo) (called w s) in
    attempts_post s w r w').
  { intros msg.
    destruct (on_exception_cases s retries b attempt msg
                (attempts E s retries b (S attempt) todo) (called w s))
      as [(e & w' & -> & Hw')|[[_ ->]|[_ ->]]].
    - destruct Hw' as [->| ->].
      + split; [done|]. split; [by eexists|done].
      + split; [done|]. split; [|done].
        eexists. cbn [logged called trace]. rewrite <- app_assoc. reflexivity.
    - apply Hagain.
    - split; [done|]. split; [|by left].
      eexists. cbn [logged called trace]. rewrite <- app_assoc. reflexivity. }
  rewrite attempts_step.
  destruct (translator_translate E (n_call w) s) as [[t|]|msg];
    [|exact Hagain0|apply Hexc].
  destruct (String.eqb t "") eqn:Ht; [exact Hagain0|].
  destruct (cache_store (cache w) s (JStr t)) as [c'|] eqn:Hst; [|apply Hexc].
  split; [done|]. split; [by eexists|]. right.
  exists t. split; [done|]. split; [by apply String.eqb_neq|done].
Qed.

(** [translate_text] only adds events, leaves the files alone, and changes
    the cache by at most the entry of a new translation. What it returns
    beside [None] is the value under the text in the cache afterwards. *)
Lemma translate_text_frame v retries b w :
  let '(r, w') := translate_text E v retries b w in
  same_files w w' /\ (exists evs, trace w' = trace w ++ evs) /\
  match r with
  | Ok JNull => True
  | Ok x => exists s, v = JStr s /\ all_space s = false /\
                      cache_get (cache w') s = Some x
  | Raise _ => True
  end.
Proof.
  unfold translate_text.
  assert (Hid : same_files w w /\ (exists evs, trace w = trace w ++ evs)).
  { repeat split. exists []. by rewrite app_nil_r. }
  destruct Hid as [Hsame Hevs0].
  destruct (truthy v) eqn:Hv; simpl; [|munfold; done].
  destruct v as [| | |s| |]; try (munfold; done).
  destruct (String.eqb (strip s) "") eqn:Hs; [munfold; done|].
  assert (Hns : all_space s = false).
  { destruct (all_space s) eqn:Ha; [|done].
    apply all_space_strip in Ha. rewrite Ha in Hs. done. }
  unfold bind at 1. unfold get_cache.
  destruct (cache_in (cache w) s) as [[|]|]; [| |munfold; done].
  { destruct (cache_get (cache w) s) as [x|] eqn:Hx; [|munfold; done].
    unfold ret. split; [done|]. split; [done|].
    destruct x; eauto. }
  unfold bind, new_translator.
  destruct (translator_init E (n_init w)).
  { repeat split. by eexists. }
  match goal with |- context [attempts E s retries b 0 retries ?w0] =>
    pose proof (attempts_frame s retries b 0 retries w0) as H;
    destruct (attempts E s retries b 0 retries w0) as [r w']
  end.
  destruct H as (Hf & [evs Hevs] & Hr). simpl in *.
  split; [done|]. split.
  { eexists. rewrite Hevs, <- app_assoc. reflexivity. }
  destruct r as [x|]; [|done].
  destruct Hr as [[-> _]|(t & -> & _ & Hst)]; [done|].
  exists s. split; [done|]. split; [done|].
  destruct (cache w) as [| | | | |d]; cbn in Hst; try done.
  injection Hst as <-. cbn. apply dict_get_set_eq.
Qed.

(** A cache that is a dict stays one. *)
Lemma attempts_dict s retries b attempt todo w :
  is_dict (cache w) = true ->
  is_dict (cache (snd (attempts E s retries b attempt todo w))) = true.
Proof.
  intros Hd. pose proof (attempts_frame s retries b attempt todo w) as H.
  destruct (attempts E s retries b attempt todo w) as [r w'].
  destruct H as (_ & _ & Hr). cbn [snd].
  destruct r as [v|e]; [|by rewrite Hr].
  destruct Hr as [[_ ->]|(t & _ & _ & Hst)]; [done|].
  destruct (cache w); cbn in Hst; try done. by injection Hst as <-.
Qed.

Lemma translate_text_dict v retries b w :
  is_dict (cache w) = true ->
  is_dict (cache (snd (translate_text E v retries b w))) = true.
Proof.
  intros Hd. unfold translate_text.
  destruct (truthy v); cbn [negb]; [|done].
  destruct v as [| | |s| |]; try done.
  destruct (String.eqb (strip s) ""); [done|].
  unfold bind at 1, get_cache.
  destruct (cache_in (cache w) s) as [[|]|]; [| |done].
  { by destruct (cache_get (cache w) s). }
  unfold bind, new_translator.
  destruct (translator_init E (n_init w)); [done|].
  by apply attempts_dict.
Qed.

(** A text that is a key of the cache. *)
Lemma translate_text_hit s v retries b w :
  all_space s = false -> cache_get (cache w) s = Some v ->
  translate_text E (JStr s) retries b w = (Ok v, w).
Proof.
  intros Hs Hv. unfold translate_text.
  rewrite (all_space_false_truthy s Hs). cbn [negb].
  rewrite (eqb_strip_false s Hs). munfold.
  by rewrite (cache_get_in _ _ _ Hv), Hv.
Qed.

(** A text that is not found in the cache goes to the retry loop. *)
Lemma translate_text_miss s retries b w :
  all_space s = false -> cache_in (cache w) s = Some false ->
  translator_init E (n_init w) = None ->
  translate_text E (JStr s) retries b w =
  attempts E s retries b 0 retries
    (mkWorld (cache w) (S (n_init w)) (n_call w) (n_save w) (fout w) (disk w)
             (trace w ++ [EvConstruct])).
Proof.
  intros Hs Hc Hinit. unfold translate_text.
  rewrite (all_space_false_truthy s Hs). cbn [negb].
  rewrite (eqb_strip_false s Hs). munfold. by rewrite Hc, Hinit.
Qed.

(** A provider that answers at the first call. *)
Lemma translate_text_first_try s t n b w c' :
  all_space s = false -> cache_in (cache w) s = Some false ->
  cache_store (cache w) s (JStr t) = Some c' ->
  translator_init E (n_init w) = None ->
  translator_translate E (n_call w) s = Returns (Some t) -> t <> "" ->
  translate_text E (JStr s) (S n) b w =
  (Ok (JStr t),
   mkWorld c' (S (n_init w)) (S (n_call w)) (n_save w)
           (fout w) (disk w) (trace w ++ [EvConstruct; EvTranslate s])).
Proof.
  intros Hs Hc Hst Hinit Hresp Ht.
  rewrite (translate_text_miss s (S n) b w Hs Hc Hinit), attempts_step.
  cbn [n_call cache]. rewrite Hresp.
  apply String.eqb_neq in Ht. rewrite Ht, Hst. cbn [n_init n_save fout disk trace].
  by rewrite <- app_assoc.
Qed.

(** A provider that raises [n] times and then returns a translation, seen
    from attempt [attempt] with enough attempts left. *)
Lemma attempts_succeed s t retries b n attempt extra w c' :
  (forall k, k < n -> raises (translator_translate E (n_call w + k) s) = true) ->
  translator_translate E (n_call w + n) s = Returns (Some t) ->
  t <> "" -> cache_store (cache w) s (JStr t) = Some c' ->
  (0 <= b)%Q -> attempt + n <= POWER_OVER ->
  (forall k, k < attempt + n -> (backoff b k <= SLEEP_SAFE)%Q) ->
  attempt + n < retries ->
  exists w',
    attempts E s retries b attempt (S n + extra) w = (Ok (JStr t), w') /\
    (exists evs, trace w' = trace w ++ evs /\
       (sleeps_of evs = map (backoff b) (seq attempt n) /\
        calls_of evs = replicate (S n) s)) /\
    cache w' = c'.
Proof.
  revert attempt w.
  induction n as [|n IH]; intros attempt w Hfail Hok Ht Hst Hb Hpow Hsafe Hlt.
  - change (1 + extra) with (S extra). rewrite attempts_step.
    rewrite Nat.add_0_r in Hok. rewrite Hok.
    apply String.eqb_neq in Ht. rewrite Ht, Hst.
    eexists. split; [reflexivity|]. cbn [trace cache]. split; [|done].
    by exists [EvTranslate s].
  - change (S (S n) + extra) with (S (S n + extra)). rewrite attempts_step.
    pose proof (Hfail 0 ltac:(lia)) as H0. rewrite Nat.add_0_r in H0.
    destruct (translator_translate E (n_call w) s) as [|msg]; [done|].
    rewrite on_exception_goes_on; [|lia|unfold POWER_OVER in *; lia|].
    2:{ split; [by apply backoff_nonneg|apply Hsafe; lia]. }
    match goal with |- context [attempts E s retries b (S attempt) _ ?w0] =>
      destruct (IH (S attempt) w0) as (w' & Hrun & (evs & Hevs & Hsl & Hca) & Hc)
    end; cbn [logged called n_call cache trace]; try done.
    { intros k Hk. replace (S (n_call w) + k) with (n_call w + S k) by lia.
      apply Hfail. lia. }
    { replace (S (n_call w) + n) with (n_call w + S n) by lia. done. }
    { lia. }
    { intros k Hk. apply Hsafe. lia. }
    { lia. }
    exists w'. split; [exact Hrun|]. split; [|exact Hc].
    eexists. split.
    { rewrite Hevs. cbn [logged called trace]. rewrite <- !app_assoc. reflexivity. }
    rewrite !sleeps_of_app, !calls_of_app, Hsl, Hca. split; reflexivity.
Qed.


Lemma attempts_ok s retries b attempt todo w :
  can_back_off b (retries - 1) ->
  exists r w', attempts E s retries b attempt todo w = (Ok r, w').
Proof.
  intros Hb. revert attempt w.
  induction todo as [|todo IH]; intros attempt w.
  { by eexists _, _. }
  rewrite attempts_step.
  assert (Hexc : forall msg,
    exists r w',
      on_exception E s retries b attempt msg
        (attempts E s retries b (S attempt) todo) (called w s) = (Ok r, w')).
  { intros msg. destruct (Nat.lt_ge_cases attempt (retries - 1)) as [Hlt|Hge].
    - destruct Hb as (Hpow & Hb0 & Hsafe).
      rewrite on_exception_goes_on;
        [apply IH|done|unfold POWER_OVER in *; lia|].
      split; [by apply backoff_nonneg|by apply Hsafe].
    - rewrite on_exception_gives_up by done. by eexists _, _. }
  destruct (translator_translate E (n_call w) s) as [[t|]|msg];
    [|apply IH|apply Hexc].
  destruct (String.eqb t ""); [apply IH|].
  destruct (cache_store (cache w) s (JStr t)); [by eexists _, _|apply Hexc].
Qed.


(** The calls and the sleeps of the retry loop, however it ends: calls for
    the one text, no more than the attempts left, and sleeps that follow
    the back-off schedule of the attempts left but the last. *)
Lemma attempts_trace s retries b attempt todo w :
  attempt + todo = retries ->
  exists evs n,
    trace (snd (attempts E s retries b attempt todo w)) = trace w ++ evs /\
    calls_of evs = replicate n s /\ n <= todo /\
    sublist (sleeps_of evs) (map (backoff b) (seq attempt (todo - 1))).
Proof.
  revert attempt w. induction todo as [|todo IH]; intros attempt w Hsum.
  { exists [], 0. cbn. rewrite app_nil_r. repeat split; [lia|constructor]. }
  rewrite attempts_step.
  assert (Hone : forall w0 evs0,
    trace w0 = trace w ++ EvTranslate s :: evs0 ->
    calls_of evs0 = [] -> sleeps_of evs0 = [] ->
    exists evs n,
      trace w0 = trace w ++ evs /\
      calls_of evs = replicate n s /\ n <= S todo /\
      sublist (sleeps_of evs) (map (backoff b) (seq attempt (S todo - 1)))).
  { intros w0 evs0 Hw0 Hca Hsl. exists (EvTranslate s :: evs0), 1.
    split; [done|].
    change (calls_of (EvTranslate s :: evs0)) with (s :: calls_of evs0).
    change (sleeps_of (EvTranslate s :: evs0)) with (sleeps_of evs0).
    rewrite Hca, Hsl. split; [done|]. split; [lia|apply sublist_nil_l]. }
  assert (Hnext :
    exists evs n,
      trace (snd (attempts E s retries b (S attempt) todo (called w s)))
        = trace w ++ evs /\
      calls_of evs = replicate n s /\ n <= S todo /\
      sublist (sleeps_of evs) (map (backoff b) (seq attempt (S todo - 1)))).
  { destruct (IH (S attempt) (called w s) ltac:(lia))
      as (evs & n & Hevs & Hca & Hn & Hsl).
    exists (EvTranslate s :: evs), (S n).
    rewrite Hevs. cbn [called trace]. rewrite <- app_assoc. split; [done|].
    change (calls_of (EvTranslate s :: evs)) with (s :: calls_of evs).
    split; [by rewrite Hca|]. split; [lia|].
    change (sleeps_of (EvTranslate s :: evs)) with (sleeps_of evs).
    destruct todo as [|todo']; [exact Hsl|].
    replace (S (S todo') - 1) with (S (S todo' - 1)) by lia.
    cbn [seq map]. by apply sublist_cons. }
  assert (Hexc : forall msg,
    exists evs n,
      trace (snd (on_exception E s retries b attempt msg
                    (attempts E s retries b (S attempt) todo) (called w s)))
        = trace w ++ evs /\
      calls_of evs = replicate n s /\ n <= S todo /\
      sublist (sleeps_of evs) (map (backoff b) (seq attempt (S todo - 1)))).
  { intros msg.
    destruct (on_exception_cases s retries b attempt msg
                (attempts E s retries b (S attempt) todo) (called w s))
      as [(e & w' & -> & Hw')|[[Hlt ->]|[_ ->]]]; cbn [snd].
    - destruct Hw' as [->| ->].
      + by apply (Hone _ []).
      + apply (Hone _ [EvRetry (attempt + 1) retries (backoff b attempt)
                               (str_take 40 msg)]); [|done|done].
        cbn [logged called trace]. by rewrite <- app_assoc.
    - destruct todo as [|todo']; [lia|].
      match goal with |- context [attempts E s retries b (S attempt) _ ?w0] =>
        destruct (IH (S attempt) w0 ltac:(lia))
          as (evs & n & Hevs & Hca & Hn & Hsl)
      end.
      exists (EvTranslate s :: EvRetry (attempt + 1) retries
                (backoff b attempt) (str_take 40 msg)
                :: EvSleep (backoff b attempt) :: evs), (S n).
      rewrite Hevs. cbn [logged called trace]. rewrite <- !app_assoc.
      split; [reflexivity|].
      change (calls_of (EvTranslate s :: EvRetry (attempt + 1) retries
                (backoff b attempt) (str_take 40 msg)
                :: EvSleep (backoff b attempt) :: evs))
        with (s :: calls_of evs).
      split; [by rewrite Hca|]. split; [lia|].
      replace (S (S todo') - 1) with (S (S todo' - 1)) by lia.
      cbn [seq map].
      change (sleeps_of (EvTranslate s :: EvRetry (attempt + 1) retries
                (backoff b attempt) (str_take 40 msg)
                :: EvSleep (backoff b attempt) :: evs))
        with (backoff b attempt :: sleeps_of evs).
      by apply sublist_skip.
    - apply (Hone _ [EvFailed retries (str_take 40 s)]); [|done|done].
      cbn [logged called trace]. by rewrite <- app_assoc. }
  destruct (translator_translate E (n_call w) s) as [[t|]|msg];
    [|exact Hnext|apply Hexc].
  destruct (String.eqb t ""); [exact Hnext|].
  destruct (cache_store (cache w) s (JStr t)); [|apply Hexc].
  by apply (Hone _ []).
Qed.

(** A provider that answers nothing: no message and no sleep. *)
Lemma attempts_falsy s retries b attempt todo w :
  (forall k, falsy_answer (translator_translate E k s) = true) ->
  attempts E s retries b attempt todo w =
  (Ok JNull,
   mkWorld (cache w) (n_init w) (n_call w + todo) (n_save w) (fout w) (disk w)
           (trace w ++ replicate todo (EvTranslate s))).
Proof.
  intros Hfalsy. revert attempt w.
  induction todo as [|todo IH]; intros attempt w.
  { cbn [attempts replicate]. unfold ret.
    rewrite Nat.add_0_r, app_nil_r. by destruct w. }
  rewrite attempts_step. pose proof (Hfalsy (n_call w)) as Hk.
  destruct (translator_translate E (n_call w) s) as [[t|]|msg];
    cbn [falsy_answer] in Hk; [rewrite Hk| |done];
    rewrite IH; cbn [called cache n_init n_call n_save fout disk trace replicate];
    rewrite <- app_assoc, Nat.add_succ_r; reflexivity.
Qed.

End ClientFacts.

(** ** The cache during a computation *)

Section Preserves.

Context {R : world -> world -> Prop}.
Hypothesis R_refl : forall w, R w w.
Hypothesis R_trans : forall w1 w2 w3, R w1 w2 -> R w2 w3 -> R w1 w3.

Lemma preserves_ret {A} (a : A) : preserves R (ret a).
Proof. intros w r w' [= _ <-]. apply R_refl. Qed.

Lemma preserves_raise {A} (e : exn) : preserves R (raise e : M A).
Proof. intros w r w' [= _ <-]. apply R_refl. Qed.

Lemma preserves_bind {A B} (m : M A) (k : A -> M B) :
  preserves R m -> (forall a, preserves R (k a)) -> preserves R (bind m k).
Proof.
  intros Hm Hk w r w'. unfold bind.
  destruct (m w) as [[a|e] w1] eqn:Hmw.
  - intros Hkw. eapply R_trans; [eapply Hm, Hmw|eapply Hk, Hkw].
  - intros [= _ <-]. eapply Hm, Hmw.
Qed.

End Preserves.

Lemma ensures_bind {A B} (R : world -> world -> Prop)
      (Q : world -> outcome B -> world -> Prop) (m : M A) (k : A -> M B) :
  preserves R m -> (forall a, ensures Q (k a)) ->
  (forall w w1 r w', R w w1 -> Q w1 r w' -> Q w r w') ->
  (forall w w' e, R w w' -> Q w (Raise e) w') ->
  ensures Q (bind m k).
Proof.
  intros Hm Hk Hstep Hraise w r w'. unfold bind.
  destruct (m w) as [[a|e] w1] eqn:Hmw.
  - intros Hkw. eapply Hstep; [eapply Hm, Hmw|eapply Hk, Hkw].
  - intros [= <- <-]. eapply Hraise, Hm, Hmw.
Qed.

Lemma cache_kept_refl c : cache_kept c c.
Proof. by left. Qed.

Lemma cache_kept_trans c1 c2 c3 :
  cache_kept c1 c2 -> cache_kept c2 c3 -> cache_kept c1 c3.
Proof.
  intros [->|(d1 & d2 & -> & -> & H12)] [->|(d2' & d3 & Hd & -> & H23)].
  - by left.
  - right. eauto 6.
  - right. eauto 6.
  - injection Hd as <-. right. exists d1, d3. eauto.
Qed.

Lemma cache_kept_get c c' s v :
  cache_kept c c' -> cache_get c s = Some v -> cache_get c' s = Some v.
Proof. intros [->|(d & d' & -> & -> & H)]; [done|apply H]. Qed.

Lemma cache_kept_in c c' s :
  cache_kept c c' -> cache_in c' s = Some false -> cache_in c s = Some false.
Proof.
  intros [->|(d & d' & -> & -> & H)]; [done|]. rewrite !cache_in_dict.
  destruct (dict_get s d) as [v|] eqn:Hv; [|done].
  by rewrite (H s v Hv).
Qed.


Lemma cache_kept_store c c' s v :
  cache_in c s = Some false -> cache_store c s v = Some c' -> cache_kept c c'.
Proof.
  destruct c as [| | | | |d]; cbn; try done.
  intros Hin [= <-]. right. exists d, (dict_set s v d).
  split; [done|]. split; [done|]. intros s0 v0 H0.
  destruct (String.eqb_spec s0 s) as [->|Hne].
  - by rewrite H0 in Hin.
  - by rewrite dict_get_set_ne.
Qed.

Lemma grows_refl w : grows w w.
Proof. split; [by left|]. exists []. by rewrite app_nil_r. Qed.

Lemma grows_trans w1 w2 w3 : grows w1 w2 -> grows w2 w3 -> grows w1 w3.
Proof.
  intros [Hc1 (e1 & Ht1 & Hf1)] [Hc2 (e2 & Ht2 & Hf2)]. split.
  - by eapply cache_kept_trans.
  - exists (e1 ++ e2). split; [by rewrite Ht2, Ht1, app_assoc|].
    rewrite calls_of_app. apply List.Forall_app. split; [exact Hf1|].
    eapply List.Forall_impl; [|exact Hf2]. intros s Hs. cbn beta in *.
    by eapply cache_kept_in.
Qed.

(** A step that sends nothing to the provider and leaves the cache. *)
Lemma grows_quiet w w' evs :
  cache w' = cache w -> trace w' = trace w ++ evs -> calls_of evs = [] ->
  grows w w'.
Proof.
  intros Hc Ht Hcalls. split; [rewrite Hc; by left|].
  exists evs. split; [done|]. rewrite Hcalls. constructor.
Qed.

Lemma grows_emit e :
  calls_of [e] = [] -> preserves grows (emit e).
Proof.
  intros He w r w' [= _ <-]. by apply (grows_quiet _ _ [e]).
Qed.

Lemma grows_sleep E d : preserves grows (sleep E d).
Proof.
  intros w r w' H.
  destruct (sleep_cases E d w) as [Hs|[e Hs]]; rewrite Hs in H;
    injection H as _ <-; [|apply grows_refl].
  by apply (grows_quiet _ _ [EvSleep d]).
Qed.

Lemma write_out_cases E text w :
  (write_fault E (fout w) text = None /\
   write_out E text w =
   (Ok tt, mkWorld (cache w) (n_init w) (n_call w) (n_save w)
                   (fout w +:+ text) (disk w) (trace w))) \/
  exists e, write_out E text w = (Raise e, w).
Proof.
  unfold write_out. destruct (write_fault E (fout w) text); [right|left]; eauto.
Qed.

Lemma grows_write_out E text : preserves grows (write_out E text).
Proof.
  intros w r w' H.
  destruct (write_out_cases E text w) as [[_ Hs]|[e Hs]]; rewrite Hs in H;
    injection H as _ <-; [|apply grows_refl].
  apply (grows_quiet _ _ []); [done| |done].
  cbn [trace]. by rewrite app_nil_r.
Qed.

Lemma grows_save_cache E path : preserves grows (save_cache E path).
Proof.
  intros w r w' [= _ <-].
  apply (grows_quiet _ _ (match save_fault E (n_save w) with
                          | Some _ => [EvSaveWarning] | None => [] end));
    [done|done|].
  by destruct (save_fault E (n_save w)).
Qed.

Lemma grows_translate_text E v retries b :
  preserves grows (translate_text E v retries b).
Proof.
  unfold translate_text.
  destruct (truthy v); cbn [negb]; [|apply preserves_ret, grows_refl].
  destruct v as [| | |s| |]; try (apply preserves_raise, grows_refl).
  destruct (String.eqb (strip s) ""); [apply preserves_ret, grows_refl|].
  intros w r w'. munfold.
  destruct (cache_in (cache w) s) as [[|]|] eqn:Hmiss.
  { destruct (cache_get (cache w) s); intros [= _ <-]; apply grows_refl. }
  2:{ intros [= _ <-]. apply grows_refl. }
  destruct (translator_init E (n_init w)).
  { intros [= _ <-]. by apply (grows_quiet _ _ [EvConstruct]). }
  match goal with |- context [attempts E s retries b 0 retries ?w0] =>
    pose proof (attempts_frame E s retries b 0 retries w0) as Hf;
    destruct (attempts_trace E s retries b 0 retries w0 eq_refl)
      as (evs & n & Hevs & Hca & _ & _);
    destruct (attempts E s retries b 0 retries w0) as [r0 w0'] eqn:Hrun
  end.
  intros [= _ <-]. destruct Hf as (_ & _ & Hc). wsimpl. split.
  - destruct r0 as [x|e]; [|rewrite Hc; by left].
    destruct Hc as [[_ ->]|(t & _ & _ & Hst)]; [by left|].
    by eapply cache_kept_store.
  - exists (EvConstruct :: evs). split; [by rewrite Hevs, <- app_assoc|].
    change (calls_of (EvConstruct :: evs)) with (calls_of evs). rewrite Hca.
    apply List.Forall_forall.
    intros s' Hin. apply list_elem_of_In, elem_of_replicate in Hin as [-> _].
    done.
Qed.

Lemma grows_translate_field E src dst d :
  preserves grows (translate_field E src dst d).
Proof.
  unfold translate_field.
  destruct (truthy (get_or_none src d)); [|apply preserves_ret, grows_refl].
  apply (preserves_bind grows_trans).
  - apply grows_translate_text.
  - intros r. apply preserves_ret, grows_refl.
Qed.

Lemma grows_already_done resume ids v :
  preserves grows (already_done resume ids v).
Proof.
  unfold already_done. destruct (resume && truthy v).
  - destruct (py_key v); [apply preserves_ret|apply preserves_raise];
      apply grows_refl.
  - apply preserves_ret, grows_refl.
Qed.

Lemma grows_handle_record E cache_path delay resume ids obj c :
  preserves grows (handle_record E cache_path delay resume ids obj c).
Proof.
  unfold handle_record.
  destruct obj as [| | | | |d]; try (apply preserves_raise, grows_refl).
  apply (preserves_bind grows_trans);
    [apply grows_already_done|].
  intros [|]; [apply preserves_ret, grows_refl|].
  apply (preserves_bind grows_trans);
    [apply grows_translate_field|]. intros d1.
  apply (preserves_bind grows_trans); [apply grows_sleep|].
  intros _.
  apply (preserves_bind grows_trans);
    [apply grows_translate_field|]. intros d2.
  apply (preserves_bind grows_trans); [apply grows_sleep|].
  intros _.
  apply (preserves_bind grows_trans); [apply grows_write_out|].
  intros _. cbn zeta.
  destruct (written _ mod 50 =? 0); [|apply preserves_ret, grows_refl].
  apply (preserves_bind grows_trans); [apply grows_save_cache|].
  intros _.
  apply (preserves_bind grows_trans); [by apply grows_emit|].
  intros _. apply preserves_ret, grows_refl.
Qed.

Lemma grows_for_each_object E cache_path delay resume ids texts c :
  preserves grows (for_each_object E cache_path delay resume ids texts c).
Proof.
  revert c. induction texts as [|t texts IH]; intros c; cbn [for_each_object].
  { apply preserves_ret, grows_refl. }
  apply (preserves_bind grows_trans); [|intros c'; apply IH].
  unfold on_object. destruct (json_loads E t).
  - apply grows_handle_record.
  - apply (preserves_bind grows_trans); [by apply grows_emit|].
    intros _. apply preserves_ret, grows_refl.
Qed.

Lemma grows_len_cache : preserves grows len_cache.
Proof.
  intros w r w'. unfold len_cache. munfold.
  destruct (sized (cache w)); intros [= _ <-]; apply grows_refl.
Qed.

Lemma grows_run_objects E cache_path delay resume ids texts :
  preserves grows (run_objects E cache_path delay resume ids texts).
Proof.
  apply (preserves_bind grows_trans); [apply grows_len_cache|].
  intros _. apply grows_for_each_object.
Qed.

(** ** Records *)

Lemma get_or_none_set_ne k k' v d :
  k <> k' -> get_or_none k (dict_set k' v d) = get_or_none k d.
Proof. intros H. unfold get_or_none. by rewrite dict_get_set_ne. Qed.

Lemma dict_get_set_if_ne k dst r d :
  k <> dst -> dict_get k (set_if dst r d) = dict_get k d.
Proof.
  intros H. unfold set_if. destruct (truthy r); [|done].
  by apply dict_get_set_ne.
Qed.

Lemma get_or_none_set_if k dst r d :
  k <> dst -> get_or_none k (set_if dst r d) = get_or_none k d.
Proof. intros H. unfold get_or_none. by rewrite dict_get_set_if_ne. Qed.

Lemma vi_ok_set_if dst r d : vi_ok dst d (set_if dst r d).
Proof.
  unfold set_if. destruct (truthy r) eqn:Hr; [|by left].
  right. exists r. by rewrite dict_get_set_eq.
Qed.

Lemma translated_from_set_if r1 r2 d :
  translated_from d (set_if "definition_vi" r2 (set_if "term_vi" r1 d)).
Proof.
  split; [|split].
  - intros k H1 H2. by rewrite !dict_get_set_if_ne.
  - destruct (vi_ok_set_if "term_vi" r1 d) as [H|(r & Hr & H)].
    + left. by rewrite dict_get_set_if_ne.
    + right. exists r. by rewrite dict_get_set_if_ne.
  - destruct (vi_ok_set_if "definition_vi" r2 (set_if "term_vi" r1 d))
      as [H|(r & Hr & H)].
    + left. rewrite H. by rewrite dict_get_set_if_ne.
    + right. eauto.
Qed.

Lemma translates_from E delay w d d' :
  translates E delay w d d' -> translated_from d d'.
Proof.
  intros (r1 & w1 & r2 & w2 & _ & _ & ->). apply translated_from_set_if.
Qed.

Section RecordFacts.

Variable E : env.

Lemma translate_text_falsy v retries b w :
  truthy v = false -> translate_text E v retries b w = (Ok JNull, w).
Proof. intros H. unfold translate_text. by rewrite H. Qed.

Lemma translate_text_ok v retries b w :
  text_like v = true -> translator_init E (n_init w) = None ->
  can_back_off b (retries - 1) -> is_dict (cache w) = true ->
  exists r w', translate_text E v retries b w = (Ok r, w').
Proof.
  intros Hv Hinit Hb Hd. unfold translate_text.
  destruct (truthy v) eqn:Ht; cbn [negb]; [|munfold; eauto].
  unfold text_like in Hv.
  destruct v as [| | |s| |]; cbv beta iota in Hv; try (rewrite Ht in Hv; done).
  destruct (String.eqb (strip s) ""); [munfold; eauto|].
  munfold. destruct (cache w) as [| | | | |d] eqn:Hc; try done.
  rewrite cache_in_dict. cbn [cache_get].
  destruct (dict_get s d); [eauto|].
  rewrite Hinit. by apply attempts_ok.
Qed.


(** Lines 142-146: the field, in the terms of [translate_text]. *)
Lemma translate_field_eq src dst d w :
  translate_field E src dst d w =
  match translate_text E (get_or_none src d) 5 1 w with
  | (Ok r, w') => (Ok (set_if dst r d), w')
  | (Raise e, w') => (Raise e, w')
  end.
Proof.
  unfold translate_field.
  destruct (truthy (get_or_none src d)) eqn:Ht.
  - unfold bind. by destruct (translate_text E _ 5 1 w) as [[r|e] w'].
  - by rewrite translate_text_falsy.
Qed.

Lemma translate_field_fout src dst d w :
  fout (snd (translate_field E src dst d w)) = fout w.
Proof.
  rewrite translate_field_eq.
  pose proof (translate_text_frame E (get_or_none src d) 5 1 w) as H.
  destruct (translate_text E _ 5 1 w) as [[r|e] w'];
    destruct H as ((Hf & _) & _); exact Hf.
Qed.

Lemma already_done_world resume ids v w :
  snd (already_done resume ids v w) = w.
Proof.
  unfold already_done.
  destruct (resume && truthy v); [|done]. by destruct (py_key v).
Qed.

Lemma already_done_true resume ids v w w' :
  already_done resume ids v w = (Ok true, w') ->
  resume = true /\ truthy v = true /\ exists k, py_key v = Some k /\ k ∈ ids.
Proof.
  unfold already_done.
  destruct resume, (truthy v); simpl; try (munfold; congruence).
  destruct (py_key v) as [k|]; munfold; [|congruence].
  intros [= Hk _]. apply bool_decide_eq_true in Hk. eauto.
Qed.

Lemma already_done_skips resume ids d w b w' :
  already_done resume ids (get_or_none "mesh_id" d) w = (Ok b, w') ->
  b = skips resume ids d /\ w' = w.
Proof.
  unfold already_done, skips.
  destruct (resume && truthy (get_or_none "mesh_id" d)); cbn [andb].
  - destruct (py_key _); munfold; [|done]. by intros [= <- <-].
  - munfold. by intros [= <- <-].
Qed.

(** The end of the body of the loop: the write raises and nothing is
    written, or the line is written and counted. *)
Lemma write_record_cases cache_path d2 c w :
  (exists e, write_record E cache_path d2 c w = (Raise e, w)) \/
  (write_fault E (fout w) (json_dumps E (JObj d2) +:+ newline) = None /\
   exists evs w',
     write_record E cache_path d2 c w
       = (Ok (mkCounters (total_read c) (S (written c))), w') /\
     fout w' = fout w +:+ json_dumps E (JObj d2) +:+ newline /\
     cache w' = cache w /\ n_init w' = n_init w /\ n_call w' = n_call w /\
     trace w' = trace w ++ evs /\ calls_of evs = [] /\ sleeps_of evs = []).
Proof.
  destruct (write_out_cases E (json_dumps E (JObj d2) +:+ newline) w)
    as [[Hw Heq]|[e Heq]]; [right|left; exists e];
    unfold write_record; unfold bind at 1; rewrite Heq; [|done].
  split; [exact Hw|]. cbn zeta. munfold. wsimpl.
  destruct (S (written c) mod 50 =? 0); unfold save_cache;
    cbn beta iota zeta; wsimpl.
  - exists (match save_fault E (n_save w) with
            | Some _ => [EvSaveWarning] | None => [] end
            ++ [EvProgress (S (written c)) (total_read c)]).
    eexists. split; [reflexivity|]. wsimpl.
    rewrite <- app_assoc. destruct (save_fault E (n_save w)); done.
  - exists []. eexists. split; [reflexivity|]. wsimpl.
    by rewrite app_nil_r.
Qed.

Lemma write_record_ok cache_path d2 c w :
  write_fault E (fout w) (json_dumps E (JObj d2) +:+ newline) = None ->
  exists evs w',
    write_record E cache_path d2 c w
      = (Ok (mkCounters (total_read c) (S (written c))), w') /\
    fout w' = fout w +:+ json_dumps E (JObj d2) +:+ newline /\
    cache w' = cache w /\ n_init w' = n_init w /\ n_call w' = n_call w /\
    trace w' = trace w ++ evs /\ calls_of evs = [] /\ sleeps_of evs = [].
Proof.
  intros Hw.
  destruct (write_record_cases cache_path d2 c w) as [[e He]|[_ H]]; [|exact H].
  unfold write_record, bind, write_out in He. rewrite Hw in He.
  cbn zeta in He. unfold save_cache, emit, ret in He.
  by destruct (written _ mod 50 =? 0).
Qed.

(** The body of the loop on a record that line 137 lets through, when the
    two translations and the two sleeps go through. *)
Lemma handle_record_steps cache_path delay resume ids d c w r1 w1 r2 w2 :
  already_done resume ids (get_or_none "mesh_id" d) w = (Ok false, w) ->
  translate_text E (get_or_none "term_en" d) 5 1 w = (Ok r1, w1) ->
  can_sleep delay ->
  translate_text E (get_or_none "definition" d) 5 1
                 (logged w1 [EvSleep delay]) = (Ok r2, w2) ->
  handle_record E cache_path delay resume ids (JObj d) c w =
  write_record E cache_path
    (set_if "definition_vi" r2 (set_if "term_vi" r1 d)) c
    (logged w2 [EvSleep delay]).
Proof.
  intros Hskip H1 Hdelay H2. unfold handle_record.
  unfold bind at 1. rewrite Hskip.
  unfold bind at 1. rewrite translate_field_eq, H1.
  unfold bind at 1. rewrite (sleep_ok E delay w1 Hdelay).
  unfold bind at 1. rewrite translate_field_eq.
  rewrite get_or_none_set_if by done. rewrite H2.
  unfold bind at 1. rewrite (sleep_ok E delay w2 Hdelay).
  reflexivity.
Qed.

(** What the body of the loop does with one record: it skips it, writes
    it with the translations, or raises before writing anything. *)
Lemma handle_record_shape cache_path delay resume ids d c w :
  let '(r, w') := handle_record E cache_path delay resume ids (JObj d) c w in
  match r with
  | Ok c' =>
      if skips resume ids d then c' = c /\ w' = w
      else exists d', translates E delay w d d' /\
             fout w' = fout w +:+ json_dumps E (JObj d') +:+ newline /\
             c' = mkCounters (total_read c) (S (written c))
  | Raise _ => fout w' = fout w
  end.
Proof.
  unfold handle_record. unfold bind at 1.
  destruct (already_done resume ids (get_or_none "mesh_id" d) w)
    as [[skip|e] w0] eqn:Had.
  2:{ pose proof (already_done_world resume ids (get_or_none "mesh_id" d) w)
        as Hw. rewrite Had in Hw. by cbn in Hw; subst. }
  apply already_done_skips in Had as [-> ->].
  destruct (skips resume ids d); [done|].
  unfold bind at 1. rewrite translate_field_eq.
  pose proof (translate_text_frame E (get_or_none "term_en" d) 5 1 w) as F1.
  destruct (translate_text E (get_or_none "term_en" d) 5 1 w)
    as [[r1|e] w1] eqn:H1; destruct F1 as ((Hf1 & _) & _); [|done].
  unfold bind at 1.
  destruct (sleep_cases E delay w1) as [Hs1|[e Hs1]]; rewrite Hs1; [|done].
  unfold bind at 1. rewrite translate_field_eq.
  rewrite get_or_none_set_if by done.
  pose proof (translate_text_frame E (get_or_none "definition" d) 5 1
                (logged w1 [EvSleep delay])) as F2.
  destruct (translate_text E (get_or_none "definition" d) 5 1
              (logged w1 [EvSleep delay]))
    as [[r2|e] w2] eqn:H2; destruct F2 as ((Hf2 & _) & _);
    cbn [logged fout] in Hf2; [|congruence].
  unfold bind at 1.
  destruct (sleep_cases E delay w2) as [Hs2|[e Hs2]]; rewrite Hs2;
    [|congruence].
  change (bind (write_out E _) _) with
    (write_record E cache_path
       (set_if "definition_vi" r2 (set_if "term_vi" r1 d)) c).
  destruct (write_record_cases cache_path
              (set_if "definition_vi" r2 (set_if "term_vi" r1 d)) c
              (logged w2 [EvSleep delay]))
    as [[e ->]|[_ (evs & w' & -> & Hfout & _)]].
  { cbn [logged fout]. congruence. }
  eexists. split; [|split; [|reflexivity]].
  - exists r1, w1, r2, w2. rewrite Hs1. cbn [snd]. by split.
  - rewrite Hfout. cbn [logged fout]. congruence.
Qed.

End RecordFacts.

(** ** The stream reader *)

Lemma CHUNK_pos : 0 < CHUNK.
Proof. unfold CHUNK. apply Nat.neq_0_lt_0, Nat.pow_nonzero. done. Qed.

Lemma segments_app a b sc :
  segments (a +:+ b) sc = segments a sc ++ segments b (scan_end a sc).
Proof.
  revert sc. induction a as [|ch a IH]; intros sc; [done|].
  rewrite string_cons_app. cbn [segments scan_end].
  destruct (scan_step ch sc) as [sc' [text|]]; cbn [fst]; rewrite IH; done.
Qed.

Lemma scan_end_app a b sc :
  scan_end (a +:+ b) sc = scan_end b (scan_end a sc).
Proof.
  revert sc. induction a as [|ch a IH]; intros sc; [done|].
  rewrite string_cons_app. cbn [scan_end]. apply IH.
Qed.

(** Before the opening bracket nothing is read. *)
Lemma scan_before_array pre :
  lacks "[" pre = true ->
  segments pre scanner0 = [] /\ scan_end pre scanner0 = scanner0.
Proof.
  induction pre as [|ch r IH]; [done|].
  cbn [lacks]. intros [Hch Hr]%andb_prop. apply negb_true_iff in Hch.
  cbn [segments scan_end]. unfold scan_step. cbn [in_array scanner0 negb].
  rewrite Hch. cbn [fst]. auto.
Qed.

(** Between two objects nothing is read. *)
Lemma scan_gap gap :
  brace_free gap = true ->
  segments gap (mkScanner true 0 "") = [] /\
  scan_end gap (mkScanner true 0 "") = mkScanner true 0 "".
Proof.
  unfold brace_free. induction gap as [|ch r IH]; [done|].
  cbn [lacks]. intros [[H1 Hr1]%andb_prop [H2 Hr2]%andb_prop]%andb_prop.
  apply negb_true_iff in H1, H2.
  cbn [segments scan_end]. unfold scan_step. wsimpl. cbn [negb].
  rewrite H1, H2. cbn. apply IH. by rewrite Hr1, Hr2.
Qed.

(** An object is read whole, once, when its last character closes it. *)
Lemma scan_object t depth cur :
  closes depth t = true ->
  segments t (mkScanner true (Z.of_nat depth) cur) = [cur +:+ t] /\
  scan_end t (mkScanner true (Z.of_nat depth) cur) = mkScanner true 0 "".
Proof.
  revert depth cur. induction t as [|ch r IH]; intros depth cur; [done|].
  cbn [closes segments scan_end]. unfold scan_step. wsimpl. cbn [negb].
  destruct (Ascii.eqb ch "{") eqn:Hopen.
  { apply Ascii.eqb_eq in Hopen as ->. intros Hr.
    replace (0 <? Z.of_nat depth + 1)%Z with true by (symmetry; apply Z.ltb_lt; lia).
    change (Ascii.eqb "{" "}") with false. cbn beta iota. cbn [fst].
    replace (Z.of_nat depth + 1)%Z with (Z.of_nat (S depth)) by lia.
    destruct (IH (S depth) (cur +:+ String "{" "") Hr) as [-> ->].
    by rewrite string_app_assoc. }
  destruct (Ascii.eqb ch "}") eqn:Hclose.
  { apply Ascii.eqb_eq in Hclose as ->.
    destruct depth as [|[|d]]; [done| |].
    - intros ->%String.eqb_eq. cbn. done.
    - intros Hr.
      replace (0 <? Z.of_nat (S (S d)))%Z with true by (symmetry; apply Z.ltb_lt; lia).
      replace (Z.of_nat (S (S d)) - 1 =? 0)%Z with false by (symmetry; apply Z.eqb_neq; lia).
      cbn beta iota. cbn [fst].
      replace (Z.of_nat (S (S d)) - 1)%Z with (Z.of_nat (S d)) by lia.
      destruct (IH (S d) (cur +:+ String "}" "") Hr) as [-> ->].
      by rewrite string_app_assoc. }
  destruct depth as [|d]; [done|]. intros Hr.
  replace (0 <? Z.of_nat (S d))%Z with true by (symmetry; apply Z.ltb_lt; lia).
  cbn beta iota. cbn [fst].
  destruct (IH (S d) (cur +:+ String ch "") Hr) as [-> ->].
  by rewrite string_app_assoc.
Qed.

Lemma scan_items items :
  List.Forall
    (fun it => object_text (fst it) = true /\ brace_free (snd it) = true)
    items ->
  segments (array_items items) (mkScanner true 0 "") = map fst items /\
  scan_end (array_items items) (mkScanner true 0 "") = mkScanner true 0 "".
Proof.
  induction 1 as [|[t gap] items [Ht Hgap] _ [IHs IHe]]; [done|].
  cbn [array_items map fst]. cbn [fst snd] in Ht, Hgap.
  destruct (scan_object t 0 "" Ht) as [Hs He].
  destruct (scan_gap gap Hgap) as [Hgs Hge].
  change (Z.of_nat 0) with 0%Z in Hs, He.
  rewrite !segments_app, !scan_end_app, Hs, He, Hgs, Hge, IHs, IHe.
  rewrite string_nil_app. done.
Qed.

(** The reader on an array whose objects hold no brace in a string. *)
Lemma scan_array pre gap items :
  well_formed_array pre gap items ->
  segments (array_file pre gap items) scanner0 = map fst items.
Proof.
  intros (Hpre & Hgap & Hitems). unfold array_file.
  destruct (scan_before_array pre Hpre) as [Hs He].
  destruct (scan_gap gap Hgap) as [Hgs Hge].
  destruct (scan_items items Hitems) as [His Hie].
  rewrite segments_app, Hs, He. cbn [app].
  change ("[" +:+ gap +:+ array_items items)
    with (String "[" (gap +:+ array_items items)).
  cbn [segments]. unfold scan_step. cbn.
  rewrite segments_app, Hgs, Hge, His. done.
Qed.

Lemma scan_array_end pre gap items :
  well_formed_array pre gap items ->
  scan_end (array_file pre gap items) scanner0 = mkScanner true 0 "".
Proof.
  intros (Hpre & Hgap & Hitems). unfold array_file.
  destruct (scan_before_array pre Hpre) as [_ He].
  destruct (scan_gap gap Hgap) as [_ Hge].
  destruct (scan_items items Hitems) as [_ Hie].
  rewrite scan_end_app, He.
  change ("[" +:+ gap +:+ array_items items)
    with (String "[" (gap +:+ array_items items)).
  cbn [scan_end]. unfold scan_step. cbn.
  by rewrite scan_end_app, Hge, Hie.
Qed.

(** The identifiers of the existing output are those of its lines that
    decode to a dict with a hashable ['mesh_id']. *)
Lemma existing_ids_lines E old k :
  k ∈ existing_ids E true (Some old) <->
  exists line d v,
    In line (file_lines old) /\ json_loads E line = Some (JObj d) /\
    dict_get "mesh_id" d = Some v /\ py_key v = Some k.
Proof.
  cbn [existing_ids].
  assert (H : forall lines acc,
    k ∈ fold_left (note_line E) lines acc <->
    k ∈ acc \/
    exists line d v,
      In line lines /\ json_loads E line = Some (JObj d) /\
      dict_get "mesh_id" d = Some v /\ py_key v = Some k).
  { induction lines as [|line lines IH]; intros acc; cbn [fold_left].
    - split; [auto|]. intros [H|(? & ? & ? & [] & _)]. exact H.
    - rewrite IH. unfold note_line at 1. split.
      + intros [Hk|(l & d & v & Hin & Hrest)].
        * destruct (json_loads E line) as [[| | | | |d]|] eqn:Hl; auto.
          destruct (dict_get "mesh_id" d) as [v|] eqn:Hv; auto.
          destruct (py_key v) as [k'|] eqn:Hk'; auto.
          apply elem_of_union in Hk as [->%elem_of_singleton|Hk]; auto.
          right. exists line, d, v. cbn [In]. auto.
        * right. exists l, d, v. cbn [In]. auto.
      + intros [Hk|(l & d & v & [<-|Hin] & Hl & Hv & Hk)].
        * left. destruct (json_loads E line) as [[| | | | |d]|]; auto.
          destruct (dict_get "mesh_id" d) as [v|]; auto.
          destruct (py_key v); auto. apply elem_of_union. by right.
        * left. rewrite Hl, Hv, Hk. apply elem_of_union. left.
          by apply elem_of_singleton.
        * right. exists l, d, v. auto. }
  rewrite H. split; [|auto]. intros [Hk|Hk]; [|exact Hk].
  by apply not_elem_of_empty in Hk.
Qed.

Section ReaderFacts.

Variable E : env.
Variables (cache_path : string) (delay : Q) (resume : bool) (ids : gset pykey).

(** The loop over the characters is the loop over the objects that the
    scanner completes. *)
Lemma for_chars_segments s sc c w :
  for_chars E cache_path delay resume ids s (sc, c) w =
  match for_each_object E cache_path delay resume ids (segments s sc) c w with
  | (Ok c', w') => (Ok (scan_end s sc, c'), w')
  | (Raise e, w') => (Raise e, w')
  end.
Proof.
  revert sc c w. induction s as [|ch r IH]; intros sc c w; [done|].
  cbn [for_chars segments scan_end for_each_object].
  unfold bind at 1. unfold process_char. cbn [fst snd].
  destruct (scan_step ch sc) as [sc' [text|]]; cbn [fst].
  - cbn [for_each_object]. unfold bind.
    destruct (on_object E cache_path delay resume ids text c w) as [[c'|e] w'];
      [|done].
    unfold ret. apply IH.
  - unfold ret. apply IH.
Qed.

Lemma for_chars_app a b st w :
  for_chars E cache_path delay resume ids (a +:+ b) st w =
  match for_chars E cache_path delay resume ids a st w with
  | (Ok st', w') => for_chars E cache_path delay resume ids b st' w'
  | (Raise e, w') => (Raise e, w')
  end.
Proof.
  revert st w. induction a as [|ch a IH]; intros st w; [done|].
  rewrite string_cons_app. cbn [for_chars]. unfold bind.
  destruct (process_char E cache_path delay resume ids ch st w) as [[st'|e] w'];
    [apply IH|done].
Qed.

(** The loop over the chunks ends, and is the loop over the characters of
    the file. *)
Lemma read_loop_chars fuel s st w :
  String.length s < fuel ->
  read_loop E fuel cache_path delay resume ids s st w =
  Some (for_chars E cache_path delay resume ids s st w).
Proof.
  revert s st w. induction fuel as [|fuel IH]; intros s st w Hlen; [lia|].
  cbn [read_loop]. pose proof CHUNK_pos as Hpos.
  destruct (str_take CHUNK s) as [|ch chunk] eqn:Hchunk.
  { apply str_take_empty in Hchunk as ->; done. }
  assert (Hs : for_chars E cache_path delay resume ids s st w =
               for_chars E cache_path delay resume ids
                         (String ch chunk +:+ str_drop CHUNK s) st w).
  { by rewrite <- Hchunk, str_take_drop. }
  rewrite Hs, for_chars_app.
  destruct (for_chars E cache_path delay resume ids (String ch chunk) st w)
    as [[st'|e] w']; [|done].
  apply IH. rewrite str_drop_length.
  destruct s; [discriminate|]. cbn [String.length] in *. lia.
Qed.

End ReaderFacts.


Lemma len_cache_eq w :
  len_cache w = if sized (cache w) then (Ok tt, w) else (Raise TypeError, w).
Proof. unfold len_cache. munfold. by destruct (sized (cache w)). Qed.

(** [process] always ends, and is the loop over the completed objects. *)
Lemma process_segments E input output cache_path delay resume w :
  process E input output cache_path delay resume w =
  process_objects E (segments input scanner0) output cache_path delay resume w.
Proof.
  unfold process, process_objects, run_objects. unfold bind at 1.
  rewrite len_cache_eq.
  destruct (sized (cache (start_world E cache_path w))); [|done].
  rewrite read_loop_chars by lia. rewrite for_chars_segments.
  destruct (for_each_object _ _ _ _ _ _ _ _) as [[c|e] w2]; done.
Qed.

Lemma reader_segments_of_array E pre gap items output cache_path delay resume w :
  well_formed_array pre gap items ->
  process E (array_file pre gap items) output cache_path delay resume w =
  process_objects E (map fst items) output cache_path delay resume w.
Proof. intros Hwf. by rewrite process_segments, scan_array. Qed.

(** [process] in the terms of its result. *)
Lemma process_result E input output cache_path delay resume w :
  exists r w2,
    run_objects E cache_path delay resume (existing_ids E resume output)
      (segments input scanner0) (start_world E cache_path w)
      = (r, w2) /\
    process E input output cache_path delay resume w =
    Some (r, match r with
             | Ok _ => snd (save_cache E cache_path w2)
             | Raise _ => w2
             end).
Proof.
  rewrite process_segments. unfold process_objects.
  destruct (run_objects _ _ _ _ _ _ _) as [[c|e] w2];
    eexists _, w2; (split; [reflexivity|]); reflexivity.
Qed.

(** The run after the banner, when the cache has a length. *)
Lemma run_objects_sized E cache_path delay resume ids texts w :
  sized (cache w) = true ->
  run_objects E cache_path delay resume ids texts w =
  for_each_object E cache_path delay resume ids texts counters0 w.
Proof.
  intros Hs. unfold run_objects, bind. by rewrite len_cache_eq, Hs.
Qed.

Lemma run_objects_unsized E cache_path delay resume ids texts w :
  sized (cache w) = false ->
  run_objects E cache_path delay resume ids texts w = (Raise TypeError, w).
Proof.
  intros Hs. unfold run_objects, bind. by rewrite len_cache_eq, Hs.
Qed.

Lemma is_dict_sized c : is_dict c = true -> sized c = true.
Proof. by destruct c. Qed.

Lemma grows_process E input output cache_path delay resume w r w' :
  process E input output cache_path delay resume w = Some (r, w') ->
  grows (start_world E cache_path w) w'.
Proof.
  destruct (process_result E input output cache_path delay resume w)
    as (r0 & w2 & Hloop & ->).
  intros [= <- <-]. apply grows_run_objects in Hloop.
  destruct r0; [|exact Hloop].
  eapply grows_trans; [exact Hloop|].
  apply (grows_save_cache E cache_path w2 (Ok tt)). reflexivity.
Qed.


(** ** The text of a value *)

Lemma level_app a b depth :
  level depth (a +:+ b) =
  match level depth a with Some d => level d b | None => None end.
Proof.
  revert depth. induction a as [|c a IH]; intros depth; [done|].
  rewrite string_cons_app. cbn [level].
  destruct (Ascii.eqb c "{"); [apply IH|].
  destruct (Ascii.eqb c "}").
  - destruct depth as [|[|d]]; [done|done|apply IH].
  - destruct depth; [done|apply IH].
Qed.

Lemma closes_level a b depth d :
  level depth a = Some d -> closes depth (a +:+ b) = closes d b.
Proof.
  revert depth. induction a as [|c a IH]; intros depth.
  { by intros [= ->]. }
  rewrite string_cons_app. cbn [level closes].
  destruct (Ascii.eqb c "{"); [apply IH|].
  destruct (Ascii.eqb c "}").
  - destruct depth as [|[|d']]; [done|done|apply IH].
  - destruct depth; [done|apply IH].
Qed.

Lemma level_brace_free s depth :
  brace_free s = true -> level (S depth) s = Some (S depth).
Proof.
  unfold brace_free. induction s as [|c r IH]; [done|].
  cbn [lacks level].
  intros [[H1 Hr1]%andb_prop [H2 Hr2]%andb_prop]%andb_prop.
  apply negb_true_iff in H1, H2. rewrite H1, H2. apply IH.
  by rewrite Hr1, Hr2.
Qed.

Lemma brace_free_app a b :
  brace_free a = true -> brace_free b = true -> brace_free (a +:+ b) = true.
Proof.
  unfold brace_free. induction a as [|c a IH]; [done|].
  rewrite string_cons_app. cbn [lacks].
  intros [[H1 Hr1]%andb_prop [H2 Hr2]%andb_prop]%andb_prop Hb.
  rewrite H1, H2. cbn [andb] in *.
  specialize (IH ltac:(by rewrite Hr1, Hr2) Hb).
  apply andb_prop in IH as [-> ->]. done.
Qed.

Lemma escape_char_brace_free c :
  Ascii.eqb c "{" || Ascii.eqb c "}" || brace_free (escape_char c) = true.
Proof. destruct c as [[] [] [] [] [] [] [] []]; reflexivity. Qed.

Lemma escape_brace_free s : brace_free s = true -> brace_free (escape s) = true.
Proof.
  induction s as [|c r IH]; [done|].
  unfold brace_free at 1. cbn [lacks escape].
  intros [[H1 Hr1]%andb_prop [H2 Hr2]%andb_prop]%andb_prop.
  apply negb_true_iff in H1, H2.
  pose proof (escape_char_brace_free c) as Hc. rewrite H1, H2 in Hc.
  apply brace_free_app; [exact Hc|]. apply IH. unfold brace_free.
  by rewrite Hr1, Hr2.
Qed.

Lemma py_str_brace_free s : brace_free s = true -> brace_free (py_str s) = true.
Proof.
  intros Hs. unfold py_str.
  apply brace_free_app; [done|]. apply brace_free_app; [|done].
  by apply escape_brace_free.
Qed.

Lemma uint_brace_free u : brace_free (NilEmpty.string_of_uint u) = true.
Proof.
  induction u; cbn [NilEmpty.string_of_uint]; [done|..];
    unfold brace_free in *; cbn [lacks];
    apply andb_prop in IHu as [-> ->]; reflexivity.
Qed.

Lemma int_brace_free z : brace_free (NilZero.string_of_int (Z.to_int z)) = true.
Proof.
  unfold NilZero.string_of_int.
  destruct (Z.to_int z) as [u|u]; unfold NilZero.string_of_uint.
  - destruct u; try done; apply uint_brace_free.
  - change (String "-" ?s) with ("-" +:+ s).
    apply brace_free_app; [done|]. destruct u; try done; apply uint_brace_free.
Qed.


Lemma py_dumps_arr l : py_dumps (JArr l) = "[" +:+ py_elements l +:+ "]".
Proof. reflexivity. Qed.

Lemma py_dumps_obj d : py_dumps (JObj d) = "{" +:+ py_members d +:+ "}".
Proof. reflexivity. Qed.

Lemma plain_json_arr l : plain_json (JArr l) = forallb plain_json l.
Proof. induction l as [|x r IH]; [done|]. cbn [forallb]. rewrite <- IH. done. Qed.

Lemma plain_json_obj d :
  plain_json (JObj d) =
  forallb (fun kv => brace_free (fst kv) && plain_json (snd kv)) d.
Proof.
  induction d as [|[k x] r IH]; [done|]. cbn [forallb fst snd].
  rewrite <- IH. done.
Qed.

Lemma json_ind' (P : json -> Prop) :
  P JNull -> (forall b, P (JBool b)) -> (forall z, P (JInt z)) ->
  (forall s, P (JStr s)) ->
  (forall l, List.Forall P l -> P (JArr l)) ->
  (forall d, List.Forall (fun kv => P (snd kv)) d -> P (JObj d)) ->
  forall v, P v.
Proof.
  intros Hnull Hbool Hint Hstr Harr Hobj. fix IH 1.
  intros [| b | z | s | l | d]; [done..| |].
  - apply Harr. revert l. fix IHl 1. intros [|x r]; constructor.
    + apply IH.
    + apply IHl.
  - apply Hobj. revert d. fix IHd 1. intros [|[k x] r]; constructor.
    + apply IH.
    + apply IHd.
Qed.


Lemma level_py_elements l depth :
  List.Forall keeps_level l -> forallb plain_json l = true ->
  level (S depth) (py_elements l) = Some (S depth).
Proof.
  induction 1 as [|x r Hx _ IHr]; [done|].
  cbn [forallb]. intros [Hvx Hvr]%andb_prop.
  cbn [py_elements]. rewrite level_app, (Hx depth Hvx).
  specialize (IHr Hvr). destruct r as [|y r']; [done|].
  by rewrite level_app.
Qed.

Lemma level_py_members d depth :
  List.Forall (fun kv => keeps_level (snd kv)) d ->
  forallb (fun kv => brace_free (fst kv) && plain_json (snd kv)) d = true ->
  level (S depth) (py_members d) = Some (S depth).
Proof.
  induction 1 as [|[k x] r Hx _ IHr]; [done|].
  cbn [forallb fst snd] in *. intros [[Hk Hvx]%andb_prop Hvr]%andb_prop.
  cbn [py_members].
  rewrite level_app, (level_brace_free _ _ (py_str_brace_free k Hk)).
  rewrite level_app, (level_brace_free ": " depth eq_refl).
  rewrite level_app, (Hx depth Hvx).
  specialize (IHr Hvr). destruct r as [|y r']; [done|].
  by rewrite level_app.
Qed.

Lemma level_py_dumps v : keeps_level v.
Proof.
  induction v as [| b | z | s | l IH | d IH] using json_ind'; intros depth Hv.
  - done.
  - by destruct b.
  - apply level_brace_free, int_brace_free.
  - apply level_brace_free, py_str_brace_free, Hv.
  - rewrite plain_json_arr in Hv.
    rewrite py_dumps_arr, level_app, (level_brace_free "[" depth eq_refl).
    rewrite level_app, (level_py_elements l depth IH Hv). done.
  - rewrite plain_json_obj in Hv. rewrite py_dumps_obj.
    change ("{" +:+ ?t) with (String "{" t). cbn [level].
    cbn [Ascii.eqb Bool.eqb].
    rewrite level_app, (level_py_members d (S depth) IH Hv). done.
Qed.

(** The text of an object that holds no brace in a string is an
    [object_text]. *)
Lemma py_dumps_object_text d :
  plain_json (JObj d) = true -> object_text (py_dumps (JObj d)) = true.
Proof.
  intros Hd. rewrite plain_json_obj in Hd.
  unfold object_text. rewrite py_dumps_obj.
  change ("{" +:+ ?t) with (String "{" t). cbn [closes].
  cbn [Ascii.eqb Bool.eqb].
  rewrite (closes_level (py_members d) "}" 1 1); [done|].
  apply level_py_members; [|done].
  apply List.Forall_forall. intros kv _. apply level_py_dumps.
Qed.

(** An array of objects that hold no brace in a string, written by
    [py_dumps], is a well-formed array. *)
Lemma plain_objects_well_formed pre gap (objs : list (pydict * string)) :
  lacks "[" pre = true -> brace_free gap = true ->
  List.Forall
    (fun it => plain_json (JObj (fst it)) = true /\ brace_free (snd it) = true)
    objs ->
  well_formed_array pre gap
    (map (fun it => (py_dumps (JObj (fst it)), snd it)) objs).
Proof.
  intros Hpre Hgap Hall. split; [done|]. split; [done|].
  induction Hall as [|[d g] objs [Hd Hg] _ IH]; constructor; [|exact IH].
  cbn [fst snd] in *. split; [by apply py_dumps_object_text|done].
Qed.

(** ** The cache store *)

Lemma tmp_path_fresh (path : string) : path +:+ ".tmp" <> path.
Proof.
  intros H. apply (f_equal String.length) in H.
  rewrite string_app_length in H. simpl in H. lia.
Qed.

Lemma disk_states_path content path fault (d : gmap string string) :
  List.Forall (whole_or_old path content d) (disk_states content path fault d).
Proof.
  pose proof (tmp_path_fresh path) as Hne.
  assert (Hw : forall k,
    List.Forall (whole_or_old path content d)
      (map (fun i => <[path +:+ ".tmp" := str_take i content]> d) (seq 0 k))).
  { intros k. apply List.Forall_forall. intros d' [i [<- _]]%in_map_iff.
    left. by rewrite lookup_insert_ne. }
  unfold disk_states. destruct fault as [[|k]|].
  - constructor; [by left|constructor].
  - constructor; [by left|apply Hw].
  - constructor; [by left|]. apply List.Forall_app. split; [apply Hw|].
    constructor; [|constructor]. right. unfold os_replace.
    rewrite lookup_insert_eq. by rewrite lookup_insert_eq.
Qed.

Lemma disk_states_last content path fault (d : gmap string string) :
  List.last (disk_states content path fault d) d !! path =
  match fault with
  | None => Some content
  | Some _ => d !! path
  end.
Proof.
  pose proof (tmp_path_fresh path) as Hne.
  unfold disk_states. destruct fault as [[|k]|].
  - done.
  - rewrite seq_S, map_app. cbn [map].
    rewrite app_comm_cons, List.last_last. by rewrite lookup_insert_ne.
  - rewrite app_comm_cons, List.last_last. unfold os_replace.
    rewrite lookup_insert_eq. by rewrite lookup_insert_eq.
Qed.

(** Without a fault, the complete text is in the temporary file before it
    takes the place of the cache file. *)
Lemma disk_states_order content path (d : gmap string string) :
  exists before,
    disk_states content path None d =
    before ++ [<[path +:+ ".tmp" := content]> d;
               <[path := content]> (delete (path +:+ ".tmp") d)].
Proof.
  unfold disk_states. rewrite seq_S, map_app. cbn [map].
  assert (Hfull : str_take (0 + String.length content) content = content).
  { cbn. clear. induction content as [|c r IH]; simpl; [done|by rewrite IH]. }
  rewrite Hfull. unfold os_replace. rewrite lookup_insert_eq.
  rewrite delete_insert_eq.
  eexists (_ :: _). rewrite <- !app_assoc. cbn [app]. reflexivity.
Qed.


(** ** The body of the loop *)

Section LoopFacts.

Variable E : env.
Variables (cache_path : string) (delay : Q) (resume : bool) (ids : gset pykey).


(** A benign record that the resume check lets through is written, with
    the translations. *)
Lemma handle_record_written d c w :
  text_like (get_or_none "term_en" d) = true ->
  text_like (get_or_none "definition" d) = true ->
  (forall k, translator_init E k = None) -> can_sleep delay ->
  is_dict (cache w) = true -> writes_ok E ->
  already_done resume ids (get_or_none "mesh_id" d) w = (Ok false, w) ->
  exists d' w',
    handle_record E cache_path delay resume ids (JObj d) c w =
      (Ok (mkCounters (total_read c) (S (written c))), w') /\
    translates E delay w d d' /\
    fout w' = fout w +:+ json_dumps E (JObj d') +:+ newline.
Proof.
  intros Hterm Hdef Hinit Hdelay Hdict Hwr Hskip.
  destruct (translate_text_ok E (get_or_none "term_en" d) 5 1 w Hterm
              (Hinit _) can_back_off_default Hdict) as (r1 & w1 & H1).
  assert (Hd1 : is_dict (cache (logged w1 [EvSleep delay])) = true).
  { pose proof (translate_text_dict E (get_or_none "term_en" d) 5 1 w Hdict)
      as H. by rewrite H1 in H. }
  destruct (translate_text_ok E (get_or_none "definition" d) 5 1
              (logged w1 [EvSleep delay]) Hdef (Hinit _)
              can_back_off_default Hd1) as (r2 & w2 & H2).
  rewrite (handle_record_steps E cache_path delay resume ids d c w r1 w1 r2 w2
             Hskip H1 Hdelay H2).
  destruct (write_record_ok E cache_path
              (set_if "definition_vi" r2 (set_if "term_vi" r1 d)) c
              (logged w2 [EvSleep delay]) (Hwr _ _))
    as (evs & w' & -> & Hfout & _).
  eexists _, w'. split; [reflexivity|]. split.
  - exists r1, w1, r2, w2. rewrite (sleep_ok E delay w1 Hdelay). by split.
  - rewrite Hfout. cbn [logged fout].
    pose proof (translate_text_frame E (get_or_none "term_en" d) 5 1 w) as F1.
    pose proof (translate_text_frame E (get_or_none "definition" d) 5 1
                  (logged w1 [EvSleep delay])) as F2.
    rewrite H1 in F1. rewrite H2 in F2.
    destruct F1 as ((Hf1 & _) & _), F2 as ((Hf2 & _) & _).
    cbn [logged fout] in Hf2. congruence.
Qed.



(** A record that the resume check stops leaves no trace. *)
Lemma on_object_skipped text d k c w :
  json_loads E text = Some (JObj d) ->
  resume = true -> truthy (get_or_none "mesh_id" d) = true ->
  py_key (get_or_none "mesh_id" d) = Some k -> k ∈ ids ->
  on_object E cache_path delay resume ids text c w =
  (Ok (mkCounters (S (total_read c)) (written c)), w).
Proof.
  intros Hload -> Htruthy Hk Hin. unfold on_object. rewrite Hload.
  unfold handle_record, bind, already_done. rewrite Htruthy, Hk. cbn.
  by rewrite (bool_decide_eq_true_2 _ Hin).
Qed.

Lemma for_each_object_skipped texts c w :
  resume = true -> List.Forall (already_written E ids) texts ->
  for_each_object E cache_path delay resume ids texts c w =
  (Ok (mkCounters (length texts + total_read c) (written c)), w).
Proof.
  intros Hres Hall. revert c.
  induction Hall as [|text texts (d & k & Hload & Ht & Hk & Hin) _ IH];
    intros c; cbn [for_each_object].
  { by destruct c. }
  unfold bind. rewrite (on_object_skipped text d k c w Hload Hres Ht Hk Hin).
  rewrite IH. wsimpl. cbn [length]. do 3 f_equal. lia.
Qed.

Lemma for_each_object_app a b c w :
  for_each_object E cache_path delay resume ids (a ++ b) c w =
  match for_each_object E cache_path delay resume ids a c w with
  | (Ok c', w') => for_each_object E cache_path delay resume ids b c' w'
  | (Raise e, w') => (Raise e, w')
  end.
Proof.
  revert c w. induction a as [|t a IH]; intros c w; [done|].
  cbn [app for_each_object]. unfold bind.
  destruct (on_object E cache_path delay resume ids t c w) as [[c'|e] w'];
    [apply IH|done].
Qed.


End LoopFacts.


(** * The claims *)

(** C1, as stated, fails: in an array of two objects whose first holds a
    closing brace in a string, the reader cuts the first object short at
    that brace, hands [json.loads] a text that is no object of the array,
    and never completes another object: the run reads and writes
    nothing. *)
Lemma reader_cut_by_brace_in_string :
  input_brace =
    "[" +:+ py_dumps (JObj rec_brace) +:+ ", " +:+
    py_dumps (JObj rec_C) +:+ "]" /\
  json_loads (sample_env builds down) (py_dumps (JObj rec_brace))
    = Some (JObj rec_brace) /\
  json_loads (sample_env builds down) (py_dumps (JObj rec_C))
    = Some (JObj rec_C) /\
  segments input_brace scanner0 = ["{" +:+ quoted "term_en" +:+ ": " +:+ dq +:+ "}"] /\
  segments input_brace scanner0
    <> [py_dumps (JObj rec_brace); py_dumps (JObj rec_C)] /\
  fst <$> process (sample_env builds down) input_brace None "cache.json" 0
                  true world0
    = Some (Ok counters0) /\
  (fout ∘ snd) <$> process (sample_env builds down) input_brace None
                           "cache.json" 0 true world0
    = Some "".
Proof.
  split; [reflexivity|]. split; [reflexivity|]. split; [reflexivity|].
  split; [vm_compute; reflexivity|]. split; [vm_compute; discriminate|].
  split; vm_compute; reflexivity.
Qed.

(** C1, amended. For an array file in which braces occur only as the
    delimiters of objects, none in a string, the reader completes exactly
    the objects of the array, each once, in the order of the array, and
    [process] is the body of its loop run on each of them in turn. After
    the array the reader holds no text. *)
Theorem reader_yields_each_object (E : env) (pre gap : string)
        (items : list (string * string)) (output : option string)
        (cache_path : string) (delay : Q) (resume : bool) (w : world) :
  well_formed_array pre gap items ->
  segments (array_file pre gap items) scanner0 = map fst items /\
  scan_end (array_file pre gap items) scanner0 = mkScanner true 0 "" /\
  process E (array_file pre gap items) output cache_path delay resume w =
  process_objects E (map fst items) output cache_path delay resume w.
Proof.
  intros Hwf. split; [by apply scan_array|].
  split; [by apply scan_array_end|]. by apply reader_segments_of_array.
Qed.

Lemma reader_yields_each_object_witness :
  segments input_ABC scanner0 =
    [py_dumps (JObj rec_A); py_dumps (JObj rec_B);
     py_dumps (JObj rec_C)].
Proof.
  apply (reader_yields_each_object (sample_env builds down) "" newline
           [(py_dumps (JObj rec_A), "," +:+ newline);
            (py_dumps (JObj rec_B), "," +:+ newline);
            (py_dumps (JObj rec_C), newline +:+ "]")]
           None "cache.json" 0 true world0).
  split; [reflexivity|]. split; [reflexivity|].
  repeat constructor.
Defined.


(** What the provider's answer to [term_en] becomes in the record. *)
Lemma translates_term_vi E delay w d d' s t :
  translates E delay w d d' ->
  get_or_none "term_en" d = JStr s -> all_space s = false ->
  is_dict (cache w) = true -> cache_get (cache w) s = None ->
  translator_init E (n_init w) = None ->
  translator_translate E (n_call w) s = Returns (Some t) -> t <> "" ->
  dict_get "term_vi" d' = Some (JStr t).
Proof.
  intros (r1 & w1 & r2 & w2 & H1 & _ & ->) Hterm Hs Hdict Hmiss Hinit Hresp Ht.
  destruct (cache w) as [| | | | |m] eqn:Hc; try done. cbn in Hmiss.
  rewrite Hterm in H1.
  rewrite (translate_text_first_try E s t 4 1 w (JObj (dict_set s (JStr t) m)))
    in H1; [|done|by rewrite Hc, cache_in_dict, Hmiss|by rewrite Hc|done..].
  injection H1 as <- _.
  rewrite dict_get_set_if_ne by done. unfold set_if.
  replace (truthy (JStr t)) with true
    by (cbn; apply String.eqb_neq in Ht; by rewrite Ht).
  apply dict_get_set_eq.
Qed.

(** C2. Resume mode, an output file, and an input array in which every
    record but one has a truthy identifier that a line of the output file
    holds: the run is the body of the loop on that one record and the final
    save of the cache, and the output file is what it was followed by the
    one line of that record, which is the record with the translations that
    [translate_text] returns for its fields: when the provider answers [t]
    for a [term_en] that the cache does not hold, the line has [t] for
    [term_vi]. Nothing is translated or written for the others. *)
Theorem resume_writes_only_new (E : env) (pre gap : string)
        (before after : list (string * string)) (tC gapC : string)
        (dC : pydict) (C old cache_path : string) (delay : Q) (w : world) :
  well_formed_array pre gap (before ++ (tC, gapC) :: after) ->
  List.Forall (already_written E (existing_ids E true (Some old)))
              (map fst (before ++ after)) ->
  json_loads E tC = Some (JObj dC) ->
  dict_get "mesh_id" dC = Some (JStr C) ->
  KStr C ∉ existing_ids E true (Some old) ->
  text_like (get_or_none "term_en" dC) = true ->
  text_like (get_or_none "definition" dC) = true ->
  (forall k, translator_init E k = None) -> can_sleep delay ->
  is_dict (load_cache E (disk w !! cache_path)) = true -> writes_ok E ->
  exists dC' w1 w' c,
    handle_record E cache_path delay true (existing_ids E true (Some old))
                  (JObj dC) (mkCounters (S (length before)) 0)
                  (start_world E cache_path w)
      = (Ok (mkCounters (S (length before)) 1), w1) /\
    process E (array_file pre gap (before ++ (tC, gapC) :: after)) (Some old)
            cache_path delay true w = Some (Ok c, w') /\
    w' = snd (save_cache E cache_path w1) /\
    total_read c = length (before ++ (tC, gapC) :: after) /\
    written c = 1 /\
    translates E delay (start_world E cache_path w) dC dC' /\
    output_file true (Some old) w' = old +:+ json_dumps E (JObj dC') +:+ newline /\
    (forall s t,
       get_or_none "term_en" dC = JStr s -> all_space s = false ->
       cache_get (load_cache E (disk w !! cache_path)) s = None ->
       translator_translate E (n_call w) s = Returns (Some t) -> t <> "" ->
       dict_get "term_vi" dC' = Some (JStr t)).
Proof.
  intros Hwf Hdone Hload Hid Hnew Hterm Hdef Hinit Hdelay Hdict Hwr.
  set (ids := existing_ids E true (Some old)) in *.
  rewrite map_app in Hdone. apply List.Forall_app in Hdone as [Hb Ha].
  assert (Hmesh : get_or_none "mesh_id" dC = JStr C).
  { unfold get_or_none. by rewrite Hid. }
  assert (Hskip : forall w0,
            already_done true ids (get_or_none "mesh_id" dC) w0 = (Ok false, w0)).
  { intros w0. unfold already_done. rewrite Hmesh. cbn [andb py_key].
    destruct (truthy (JStr C)); [|done]. unfold ret.
    by rewrite (bool_decide_eq_false_2 _ Hnew). }
  destruct (handle_record_written E cache_path delay true ids dC
              (mkCounters (S (length before)) 0) (start_world E cache_path w)
              Hterm Hdef Hinit Hdelay Hdict Hwr (Hskip _))
    as (dC' & w1 & Hrun & Hfrom & Hout).
  exists dC', w1, (snd (save_cache E cache_path w1)),
         (mkCounters (length after + S (length before)) 1).
  split; [exact Hrun|].
  rewrite (reader_segments_of_array E pre gap (before ++ (tC, gapC) :: after)
             (Some old) cache_path delay true w Hwf). unfold process_objects. fold ids.
  rewrite run_objects_sized by (by apply is_dict_sized).
  rewrite map_app. cbn [map fst]. rewrite for_each_object_app.
  rewrite (for_each_object_skipped E cache_path delay true ids
             (map fst before) counters0 _ eq_refl Hb).
  cbn [for_each_object]. unfold bind at 1. unfold on_object. rewrite Hload.
  cbn [total_read written counters0]. rewrite length_map, Nat.add_0_r, Hrun.
  rewrite (for_each_object_skipped E cache_path delay true ids
             (map fst after) _ w1 eq_refl Ha).
  cbn [total_read written]. rewrite length_map.
  unfold save_cache at 1. cbn [snd].
  split; [reflexivity|]. split; [reflexivity|].
  split; [cbn [total_read]; rewrite length_app; cbn [length]; lia|].
  split; [reflexivity|]. split; [exact Hfrom|]. split.
  - unfold output_file, save_cache. cbn [default snd fout].
    rewrite Hout. unfold start_world. cbn [fout]. by rewrite string_nil_app.
  - intros s t Hs Hblank Hmiss Hresp Ht.
    by apply (translates_term_vi E delay (start_world E cache_path w) dC dC' s t).
Qed.

Lemma resume_writes_only_new_witness :
  exists dC' w' c,
    process (sample_env builds (flaky 0 "Tim"))
            (array_file "" newline
               (items_AB ++ [(py_dumps (JObj rec_C), newline +:+ "]")]))
            (Some output_AB) "cache.json" (1 # 2) true world0
      = Some (Ok c, w') /\
    total_read c = 3 /\ written c = 1 /\
    dict_get "term_vi" dC' = Some (JStr "Tim") /\
    output_file true (Some output_AB) w'
      = output_AB +:+
        json_dumps (sample_env builds (flaky 0 "Tim")) (JObj dC') +:+ newline.
Proof.
  assert (Hwf : well_formed_array "" newline
            (items_AB ++ [(py_dumps (JObj rec_C), newline +:+ "]")])).
  { split; [reflexivity|]. split; [reflexivity|]. repeat constructor. }
  assert (Hdone : List.Forall
            (already_written (sample_env builds (flaky 0 "Tim"))
               (existing_ids (sample_env builds (flaky 0 "Tim")) true
                             (Some output_AB)))
            (map fst (items_AB ++ []))).
  { apply List.Forall_cons; [|apply List.Forall_cons; [|apply List.Forall_nil]].
    - exists rec_A, (KStr "A").
      split; [reflexivity|]. split; [reflexivity|]. split; [reflexivity|].
      apply (bool_decide_unpack _). vm_compute. exact I.
    - exists rec_B, (KStr "B").
      split; [reflexivity|]. split; [reflexivity|]. split; [reflexivity|].
      apply (bool_decide_unpack _). vm_compute. exact I. }
  assert (Hnew : KStr "C" ∉ existing_ids (sample_env builds (flaky 0 "Tim"))
                                       true (Some output_AB)).
  { apply (bool_decide_unpack _). vm_compute. exact I. }
  assert (Hdelay : can_sleep (1 # 2)) by (split; discriminate).
  destruct (resume_writes_only_new (sample_env builds (flaky 0 "Tim"))
              "" newline items_AB []
              (py_dumps (JObj rec_C)) (newline +:+ "]") rec_C "C"
              output_AB "cache.json" (1 # 2) world0
              Hwf Hdone eq_refl eq_refl Hnew eq_refl eq_refl
              (fun _ => eq_refl) Hdelay eq_refl (fun _ _ => eq_refl))
    as (dC' & w1 & w' & c & _ & Hproc & _ & Hread & Hwritten & _ & Hout & Hvi).
  exists dC', w', c.
  split; [exact Hproc|]. split; [exact Hread|]. split; [exact Hwritten|].
  split; [|exact Hout].
  apply (Hvi "Heart" "Tim"); [reflexivity|reflexivity|reflexivity|reflexivity|].
  discriminate.
Defined.




(** C4, as stated, fails: a text of white space is not empty, and when
    the cache holds it [translate_text] still returns [None]. *)
Lemma cached_blank_text_not_returned :
  " " <> "" /\
  cache_get (cache (world_with (JObj [(" ", JStr "x")]))) " "
    = Some (JStr "x") /\
  translate_text (sample_env builds down) (JStr " ") 5 1
                 (world_with (JObj [(" ", JStr "x")]))
  = (Ok JNull, world_with (JObj [(" ", JStr "x")])).
Proof. split; [done|]. split; reflexivity. Qed.

(** C4, amended. For a text that is not all white space and is a key of
    the cache, [translate_text] returns the cached value and leaves the
    state as it was: no provider call. And after a call that returned a
    translation, a second call with the same text returns the same value
    and leaves the state as it was. *)
Theorem cached_text_not_retranslated (E : env) (s : string) (retries : nat)
        (b : Q) (w : world) :
  all_space s = false ->
  (forall v, cache_get (cache w) s = Some v ->
             translate_text E (JStr s) retries b w = (Ok v, w)) /\
  (forall t w1, translate_text E (JStr s) retries b w = (Ok t, w1) ->
                t <> JNull ->
                forall retries' b',
                  translate_text E (JStr s) retries' b' w1 = (Ok t, w1)).
Proof.
  intros Hs. split; [intros v Hv; by apply translate_text_hit|].
  intros t w1 Hrun Ht retries' b'. apply translate_text_hit; [done|].
  pose proof (translate_text_frame E (JStr s) retries b w) as Hf.
  rewrite Hrun in Hf. destruct Hf as (_ & _ & Hc).
  destruct t; try done; by destruct Hc as (s' & [= <-] & _ & Hc).
Qed.

Lemma cached_text_not_retranslated_witness :
  all_space "Heart" = false /\
  translate_text (sample_env builds down) (JStr "Heart") 5 1
                 (world_with (JObj [("Heart", JStr "Tim")]))
  = (Ok (JStr "Tim"), world_with (JObj [("Heart", JStr "Tim")])).
Proof.
  split; [reflexivity|].
  apply (proj1 (cached_text_not_retranslated (sample_env builds down)
                  "Heart" 5 1 (world_with (JObj [("Heart", JStr "Tim")]))
                  eq_refl)).
  reflexivity.
Defined.


(** C5, as stated, fails: after a failure that is an empty answer the
    provider is asked again at once, so one failure and then a translation
    make no sleep; with no base delay the two sleeps after two exceptions
    are equal; and a base delay longer than [time.sleep] takes ends the
    call with an [OverflowError] at the first wait. *)
Lemma failures_without_increasing_sleeps :
  fst (translate_text (sample_env builds (mute 1 "Tim")) (JStr "Heart") 2 1
                      world0) = Ok (JStr "Tim") /\
  calls_of (events_since world0
              (snd (translate_text (sample_env builds (mute 1 "Tim"))
                                   (JStr "Heart") 2 1 world0)))
    = ["Heart"; "Heart"] /\
  sleeps_of (events_since world0
               (snd (translate_text (sample_env builds (mute 1 "Tim"))
                                    (JStr "Heart") 2 1 world0)))
    = [] /\
  fst (translate_text (sample_env builds (flaky 2 "Tim")) (JStr "Heart") 3 0
                      world0) = Ok (JStr "Tim") /\
  sleeps_of (events_since world0
               (snd (translate_text (sample_env builds (flaky 2 "Tim"))
                                    (JStr "Heart") 3 0 world0)))
    = [backoff 0 0; backoff 0 1] /\
  (backoff 0 0 == backoff 0 1)%Q /\
  fst (translate_text (sample_env builds (flaky 1 "Tim")) (JStr "Heart") 2
                      10000000000 world0) = Raise OverflowError.
Proof.
  do 6 (split; [vm_compute; reflexivity|]). vm_compute; reflexivity.
Qed.

(** C5, amended. When the provider raises [n] times and then returns a
    translation, for a text that is not blank and that the cache, a dict,
    does not hold, with a client that can be constructed and a positive
    base delay whose [n] first waits [time.sleep] takes, [translate_text]
    with [n + 1] retries returns that translation, after [n + 1] provider
    calls and exactly [n] sleeps, of [base_delay * 2 ^ k] seconds for [k]
    from [0] to [n - 1]: strictly increasing. *)
Theorem retries_until_success (E : env) (s t : string) (n : nat) (b : Q)
        (w : world) :
  all_space s = false ->
  is_dict (cache w) = true -> cache_get (cache w) s = None ->
  translator_init E (n_init w) = None ->
  (forall k, k < n -> raises (translator_translate E (n_call w + k) s) = true) ->
  translator_translate E (n_call w + n) s = Returns (Some t) ->
  t <> "" -> (0 < b)%Q -> can_back_off b n ->
  exists w',
    translate_text E (JStr s) (S n) b w = (Ok (JStr t), w') /\
    sleeps_of (events_since w w') = map (backoff b) (seq 0 n) /\
    length (sleeps_of (events_since w w')) = n /\
    StronglySorted Qlt (sleeps_of (events_since w w')) /\
    calls_of (events_since w w') = replicate (S n) s /\
    cache_store (cache w) s (JStr t) = Some (cache w').
Proof.
  intros Hs Hdict Hmiss Hinit Hfail Hok Ht Hb (Hpow & Hb0 & Hsafe).
  destruct (cache w) as [| | | | |m] eqn:Hc; try done. cbn in Hmiss.
  rewrite (translate_text_miss E s (S n) b w Hs)
    by (by rewrite ?Hc, ?cache_in_dict, ?Hmiss).
  match goal with |- context [attempts E s (S n) b 0 (S n) ?w0] =>
    destruct (attempts_succeed E s t (S n) b n 0 0 w0
                (JObj (dict_set s (JStr t) m)))
      as (w' & Hrun & (evs & Hevs & Hsl & Hca) & Hc')
  end; cbn [cache n_call trace]; try done.
  { by rewrite Hc. }
  { lia. }
  rewrite Nat.add_0_r in Hrun. exists w'. split; [exact Hrun|].
  cbn [trace] in Hevs.
  rewrite <- app_assoc in Hevs. rewrite (events_since_app _ _ _ Hevs).
  rewrite sleeps_of_app, calls_of_app, Hsl, Hca.
  change (sleeps_of [EvConstruct]) with (@nil Q).
  change (calls_of [EvConstruct]) with (@nil string). cbn [app].
  split; [done|]. split; [by rewrite length_map, length_seq|].
  split; [by apply backoff_sorted|]. split; [done|].
  by rewrite Hc'.
Qed.

Lemma retries_until_success_witness :
  exists w',
    translate_text (sample_env builds (flaky 2 "Tim")) (JStr "Heart") 3 1 world0
    = (Ok (JStr "Tim"), w') /\
    sleeps_of (events_since world0 w') = [1%Q * 1; 1 * 2]%Q.
Proof.
  assert (Hwait : can_back_off 1 2).
  { split; [unfold POWER_OVER; lia|]. split; [discriminate|].
    intros k Hk. destruct k as [|[|k]]; [discriminate..|lia]. }
  destruct (retries_until_success (sample_env builds (flaky 2 "Tim"))
              "Heart" "Tim" 2 1 world0)
    as (w' & Hrun & Hsl & _); try reflexivity; try exact Hwait.
  - intros k Hk. destruct k as [|[|k]]; [reflexivity|reflexivity|lia].
  - discriminate.
  - exists w'. split; [exact Hrun|exact Hsl].
Defined.




(** C7. [save_cache] never raises: a fault leaves a warning and nothing
    else. The text goes to a temporary file, complete, before that file
    replaces the cache file; in every state of the disk during the call the
    cache file is what it was before or holds the complete text; and at the
    end it holds the complete text unless a fault struck. *)
Theorem save_cache_atomic (E : env) (path : string) (w : world) :
  let content := cache_dumps E (cache w) in
  let fault := save_fault E (n_save w) in
  let states := disk_states content path fault (disk w) in
  let w' := snd (save_cache E path w) in
  fst (save_cache E path w) = Ok tt /\
  List.Forall (whole_or_old path content (disk w)) states /\
  disk w' = List.last states (disk w) /\
  match fault with
  | None =>
      disk w' !! path = Some content /\
      events_since w w' = [] /\
      exists before,
        states = before ++ [<[path +:+ ".tmp" := content]> (disk w);
                            <[path := content]>
                              (delete (path +:+ ".tmp") (disk w))]
  | Some _ =>
      disk w' !! path = disk w !! path /\
      events_since w w' = [EvSaveWarning]
  end.
Proof.
  cbv zeta. unfold save_cache. cbn [fst snd disk].
  split; [done|]. split; [apply disk_states_path|]. split; [done|].
  rewrite disk_states_last.
  destruct (save_fault E (n_save w)) as [k|].
  - split; [done|]. by apply events_since_app.
  - split; [done|]. split; [by apply events_since_app|].
    apply disk_states_order.
Qed.



(** C8. For an empty or all-white-space text [translate_text] returns
    [None] at once: the state is what it was, so no provider call, no
    sleep and no exception. *)
Theorem blank_text_short_circuits (E : env) (s : string) (retries : nat)
        (b : Q) (w : world) :
  all_space s = true ->
  translate_text E (JStr s) retries b w = (Ok JNull, w).
Proof.
  intros Hs. unfold translate_text.
  destruct (truthy (JStr s)); cbn [negb]; [|done].
  by rewrite (all_space_strip s Hs).
Qed.

Lemma blank_text_short_circuits_witness :
  all_space "   " = true /\
  translate_text (sample_env builds down) (JStr "   ") 5 1 world0
  = (Ok JNull, world0).
Proof.
  split; [reflexivity|]. apply blank_text_short_circuits. reflexivity.
Defined.



Lemma cache_nonempty_store c c' s t :
  cache_nonempty c -> t <> "" -> cache_store c s (JStr t) = Some c' ->
  cache_nonempty c'.
Proof.
  intros Hne Ht. destruct c as [| | | | |d]; cbn; try done.
  intros [= <-] k v. cbn [cache_get].
  destruct (String.eqb_spec k s) as [->|Hk].
  - rewrite dict_get_set_eq. intros [= <-]. eauto.
  - rewrite dict_get_set_ne by done. apply (Hne k v).
Qed.

(** With texts for values in the cache, [translate_text] returns [None]
    or a text, and leaves such a cache. *)
Lemma translate_text_nonempty E v retries b w :
  cache_nonempty (cache w) ->
  let '(r, w') := translate_text E v retries b w in
  cache_nonempty (cache w') /\
  match r with
  | Ok x => x = JNull \/ exists t, x = JStr t /\ t <> ""
  | Raise _ => True
  end.
Proof.
  intros Hne. unfold translate_text.
  destruct (truthy v); cbn [negb]; [|munfold; auto].
  destruct v as [| | |s| |]; try by munfold.
  destruct (String.eqb (strip s) ""); [munfold; auto|].
  unfold bind at 1. unfold get_cache.
  destruct (cache_in (cache w) s) as [[|]|]; [| |by munfold].
  { destruct (cache_get (cache w) s) as [x|] eqn:Hx; [|by munfold].
    unfold ret. split; [done|]. right. by apply (Hne s). }
  unfold bind, new_translator.
  destruct (translator_init E (n_init w)); [done|].
  match goal with |- context [attempts E s retries b 0 retries ?w0] =>
    pose proof (attempts_frame E s retries b 0 retries w0) as H;
    destruct (attempts E s retries b 0 retries w0) as [r w']
  end.
  destruct H as (_ & _ & Hr). wsimpl.
  destruct r as [x|e]; [|by rewrite Hr].
  destruct Hr as [[-> ->]|(t & -> & Ht & Hst)]; [auto|].
  split; [by eapply cache_nonempty_store|]. right. eauto.
Qed.

Lemma vi_text_set_if dst r d :
  r = JNull \/ (exists t, r = JStr t /\ t <> "") ->
  vi_text dst d (set_if dst r d).
Proof.
  intros [->|(t & -> & Ht)]; [by left|]. right. exists t. split; [done|].
  unfold set_if. replace (truthy (JStr t)) with true
    by (cbn; apply String.eqb_neq in Ht; by rewrite Ht).
  apply dict_get_set_eq.
Qed.

(** C9, as stated, fails three times: a cache that holds an empty value
    makes [translate_text] return the empty string; a cache that holds a
    number makes it return the number, which the body of the loop writes
    for [term_vi]; and a record that comes with an empty [term_vi] is
    written with it. *)
Lemma empty_translation_returned_and_kept :
  translate_text (sample_env builds down) (JStr "Heart") 5 1
                 (world_with (JObj [("Heart", JStr "")]))
  = (Ok (JStr ""), world_with (JObj [("Heart", JStr "")])) /\
  translate_text (sample_env builds down) (JStr "Heart") 5 1
                 (world_with (JObj [("Heart", JInt 5)]))
  = (Ok (JInt 5), world_with (JObj [("Heart", JInt 5)])) /\
  fout (snd (handle_record (sample_env builds down) "cache.json" 0 true ∅
                           (JObj rec_C) counters0
                           (world_with (JObj [("Heart", JInt 5)]))))
  = py_dumps (JObj (rec_C ++ [("term_vi", JInt 5)])) +:+ newline /\
  fst (handle_record (sample_env builds down) "cache.json" 0 true ∅
                     (JObj rec_kept) counters0
                     (world_with (JObj [("Heart", JStr "")])))
  = Ok (mkCounters 0 1) /\
  fout (snd (handle_record (sample_env builds down) "cache.json" 0 true ∅
                           (JObj rec_kept) counters0
                           (world_with (JObj [("Heart", JStr "")]))))
  = py_dumps (JObj rec_kept) +:+ newline /\
  dict_get "term_vi" rec_kept = Some (JStr "").
Proof.
  do 5 (split; [vm_compute; reflexivity|]). vm_compute; reflexivity.
Qed.

(** C9, amended. When every value of the cache is a non-empty string,
    [translate_text] returns [None] or a non-empty string, and leaves such
    a cache; and the body of the loop never binds [term_vi] or
    [definition_vi] to the empty string: in a written record each of the
    two keys is as the record read had it, or bound to a non-empty
    translation; every other key is as it was. *)
Theorem translations_never_empty (E : env) :
  (forall v retries b w,
     cache_nonempty (cache w) ->
     cache_nonempty (cache (snd (translate_text E v retries b w))) /\
     forall r, fst (translate_text E v retries b w) = Ok r ->
               r = JNull \/ exists t, r = JStr t /\ t <> "") /\
  (forall cache_path delay resume ids d c w c' w',
     cache_nonempty (cache w) ->
     handle_record E cache_path delay resume ids (JObj d) c w = (Ok c', w') ->
     (c' = c /\ w' = w) \/
     exists d',
       (forall k, k <> "term_vi" -> k <> "definition_vi" ->
                  dict_get k d' = dict_get k d) /\
       vi_text "term_vi" d d' /\ vi_text "definition_vi" d d' /\
       fout w' = fout w +:+ json_dumps E (JObj d') +:+ newline).
Proof.
  split.
  - intros v retries b w Hne.
    pose proof (translate_text_nonempty E v retries b w Hne) as H.
    destruct (translate_text E v retries b w) as [r w']. cbn [fst snd].
    destruct H as [Hc Hr]. split; [done|]. by intros x ->.
  - intros cache_path delay resume ids d c w c' w' Hne Hrun.
    pose proof (handle_record_shape E cache_path delay resume ids d c w) as Hs.
    rewrite Hrun in Hs.
    destruct (skips resume ids d); [by left|].
    destruct Hs as (d' & (r1 & w1 & r2 & w2 & H1 & H2 & ->) & Hf & _).
    right. eexists. split; [|split; [|split; [|exact Hf]]].
    + intros k Hk1 Hk2. by rewrite !dict_get_set_if_ne.
    + pose proof (translate_text_nonempty E (get_or_none "term_en" d) 5 1 w Hne)
        as N1. rewrite H1 in N1. destruct N1 as [_ N1].
      destruct (vi_text_set_if "term_vi" r1 d N1) as [Hv|(t & Ht & Hv)].
      * left. by rewrite dict_get_set_if_ne.
      * right. exists t. by rewrite dict_get_set_if_ne.
    + pose proof (translate_text_nonempty E (get_or_none "term_en" d) 5 1 w Hne)
        as N1. rewrite H1 in N1. destruct N1 as [Hne1 _].
      assert (Hne1' : cache_nonempty (cache (snd (sleep E delay w1)))).
      { destruct (sleep_cases E delay w1) as [->|[e ->]]; exact Hne1. }
      pose proof (translate_text_nonempty E (get_or_none "definition" d) 5 1
                    _ Hne1') as N2.
      rewrite H2 in N2. destruct N2 as [_ N2].
      destruct (vi_text_set_if "definition_vi" r2 (set_if "term_vi" r1 d) N2)
        as [Hv|(t & Ht & Hv)].
      * left. rewrite Hv. by rewrite dict_get_set_if_ne.
      * right. eauto.
Qed.

Lemma translations_never_empty_witness :
  cache_nonempty (cache (world_with (JObj [("Heart", JStr "Tim")]))) /\
  forall r,
    fst (translate_text (sample_env builds down) (JStr "Heart") 5 1
                        (world_with (JObj [("Heart", JStr "Tim")]))) = Ok r ->
    r = JNull \/ exists t, r = JStr t /\ t <> "".
Proof.
  assert (H : cache_nonempty (cache (world_with (JObj [("Heart", JStr "Tim")])))).
  { intros k v. cbn. destruct (String.eqb k "Heart"); [|done].
    intros [= <-]. by exists "Tim". }
  split; [exact H|].
  apply (proj1 (translations_never_empty (sample_env builds down))
               (JStr "Heart") 5 1%Q
               (world_with (JObj [("Heart", JStr "Tim")])) H).
Defined.

(** C10. A record whose [mesh_id] is missing, [null] or otherwise falsy is
    never skipped, whatever the existing output holds: the resume check
    answers no; when the body of the loop returns, it has written the
    record with the translations that [translate_text] returns for its
    fields, so a [term_en] that the cache does not hold is sent to the
    provider again and its answer is in the line; and the body does return
    when the fields of the record are texts, the client can be constructed,
    the delay is one that [time.sleep] takes, the cache is a dict and the
    output takes the line. *)
Theorem falsy_id_never_skipped (E : env) (cache_path : string) (delay : Q)
        (resume : bool) (output : option string) (d : pydict) (c : counters)
        (w : world) :
  truthy (get_or_none "mesh_id" d) = false ->
  already_done resume (existing_ids E resume output)
               (get_or_none "mesh_id" d) w = (Ok false, w) /\
  (forall c' w',
     handle_record E cache_path delay resume (existing_ids E resume output)
                   (JObj d) c w = (Ok c', w') ->
     c' = mkCounters (total_read c) (S (written c)) /\
     exists d', translates E delay w d d' /\
                fout w' = fout w +:+ json_dumps E (JObj d') +:+ newline) /\
  (forall d' s t,
     translates E delay w d d' ->
     get_or_none "term_en" d = JStr s -> all_space s = false ->
     is_dict (cache w) = true -> cache_get (cache w) s = None ->
     translator_init E (n_init w) = None ->
     translator_translate E (n_call w) s = Returns (Some t) -> t <> "" ->
     dict_get "term_vi" d' = Some (JStr t)) /\
  (text_like (get_or_none "term_en" d) = true ->
   text_like (get_or_none "definition" d) = true ->
   (forall k, translator_init E k = None) -> can_sleep delay ->
   is_dict (cache w) = true -> writes_ok E ->
   exists d' w',
     handle_record E cache_path delay resume (existing_ids E resume output)
                   (JObj d) c w
       = (Ok (mkCounters (total_read c) (S (written c))), w') /\
     translates E delay w d d' /\
     fout w' = fout w +:+ json_dumps E (JObj d') +:+ newline).
Proof.
  intros Hfalsy.
  assert (Hskip : already_done resume (existing_ids E resume output)
                    (get_or_none "mesh_id" d) w = (Ok false, w)).
  { unfold already_done. rewrite Hfalsy, andb_false_r. done. }
  assert (Hno : skips resume (existing_ids E resume output) d = false).
  { unfold skips. by rewrite Hfalsy, andb_false_r. }
  split; [exact Hskip|]. split; [|split].
  - intros c' w' Hrun.
    pose proof (handle_record_shape E cache_path delay resume
                  (existing_ids E resume output) d c w) as Hs.
    rewrite Hrun, Hno in Hs. destruct Hs as (d' & Hd & Hf & ->). eauto.
  - intros d' s t. apply translates_term_vi.
  - intros Hterm Hdef Hinit Hdelay Hdict Hwr.
    by apply handle_record_written.
Qed.

Lemma falsy_id_never_skipped_witness :
  truthy (get_or_none "mesh_id" rec_null) = false /\
  KNone ∈ existing_ids (sample_env builds (flaky 0 "Tim")) true
                       (Some output_null) /\
  already_done true
    (existing_ids (sample_env builds (flaky 0 "Tim")) true (Some output_null))
    (get_or_none "mesh_id" rec_null) world0 = (Ok false, world0) /\
  exists d' w',
    handle_record (sample_env builds (flaky 0 "Tim")) "cache.json" 0 true
      (existing_ids (sample_env builds (flaky 0 "Tim")) true
                    (Some output_null))
      (JObj rec_null) counters0 world0 = (Ok (mkCounters 0 1), w') /\
    dict_get "term_vi" d' = Some (JStr "Tim") /\
    fout w' = json_dumps (sample_env builds (flaky 0 "Tim")) (JObj d')
              +:+ newline.
Proof.
  split; [reflexivity|]. split.
  { apply (bool_decide_unpack _). vm_compute. exact I. }
  destruct (falsy_id_never_skipped (sample_env builds (flaky 0 "Tim"))
              "cache.json" 0 true (Some output_null) rec_null counters0 world0
              eq_refl) as (Hskip & _ & Hvi & Hrun).
  split; [exact Hskip|].
  assert (Hdelay : can_sleep 0) by (split; discriminate).
  destruct (Hrun eq_refl eq_refl (fun _ => eq_refl) Hdelay eq_refl
                 (fun _ _ => eq_refl)) as (d' & w' & Hh & Htr & Hf).
  exists d', w'. split; [exact Hh|]. split; [|exact Hf].
  apply (Hvi d' "Heart" "Tim" Htr); try reflexivity. discriminate.
Defined.



(** * Further properties *)

(** ** The retry loop, whatever the provider does *)

(** X1. Whatever the provider answers, [translate_text] calls it at most
    [retries] times, always with the text it was given, and its sleeps are
    a subsequence of [base_delay * 2 ^ k] for [k] from [0] to
    [retries - 2]: at most [retries - 1] of them. *)
Theorem retries_are_bounded (E : env) (v : json) (retries : nat) (b : Q)
        (w : world) :
  length (calls_of (events_since w (snd (translate_text E v retries b w))))
    <= retries /\
  (forall s, In s (calls_of (events_since w (snd (translate_text E v retries b w))))
             -> v = JStr s) /\
  sublist (sleeps_of (events_since w (snd (translate_text E v retries b w))))
          (map (backoff b) (seq 0 (retries - 1))) /\
  length (sleeps_of (events_since w (snd (translate_text E v retries b w))))
    <= retries - 1.
Proof.
  assert (Hnone : forall w0, w0 = w ->
    length (calls_of (events_since w w0)) <= retries /\
    (forall s, In s (calls_of (events_since w w0)) -> v = JStr s) /\
    sublist (sleeps_of (events_since w w0))
            (map (backoff b) (seq 0 (retries - 1))) /\
    length (sleeps_of (events_since w w0)) <= retries - 1).
  { intros w0 ->.
    rewrite (events_since_app w w []) by (by rewrite app_nil_r).
    cbn. repeat split; [lia|done|apply sublist_nil_l|lia]. }
  unfold translate_text.
  destruct (truthy v); cbn [negb]; [|by apply Hnone].
  destruct v as [| | |s| |]; try by apply Hnone.
  destruct (String.eqb (strip s) ""); [by apply Hnone|].
  munfold. destruct (cache_in (cache w) s) as [[|]|]; [| |by apply Hnone].
  { destruct (cache_get (cache w) s); by apply Hnone. }
  destruct (translator_init E (n_init w)).
  { cbn [snd]. rewrite (events_since_app w _ [EvConstruct]) by done.
    cbn. repeat split; [lia|done|apply sublist_nil_l|lia]. }
  match goal with |- context [attempts E s retries b 0 retries ?w0] =>
    destruct (attempts_trace E s retries b 0 retries w0 eq_refl)
      as (evs & n & Hevs & Hca & Hn & Hsl)
  end.
  wsimpl. rewrite <- app_assoc in Hevs.
  rewrite (events_since_app _ _ _ Hevs).
  change (calls_of ([EvConstruct] ++ evs)) with (calls_of evs).
  change (sleeps_of ([EvConstruct] ++ evs)) with (sleeps_of evs).
  rewrite Hca, length_replicate.
  split; [exact Hn|]. split.
  { intros s' Hin. apply list_elem_of_In, elem_of_replicate in Hin as [-> _]. done. }
  split; [exact Hsl|].
  apply sublist_length in Hsl. by rewrite length_map, length_seq in Hsl.
Qed.

(** X2. When the provider answers with nothing (an empty string or [None])
    without raising, [translate_text] asks again at once: [retries] calls
    in a row, no sleep between them, no message, the cache as it was, and
    [None] for a result. *)
Theorem empty_answers_retried_without_sleep (E : env) (s : string)
        (retries : nat) (b : Q) (w : world) :
  all_space s = false -> cache_in (cache w) s = Some false ->
  translator_init E (n_init w) = None ->
  (forall k, falsy_answer (translator_translate E k s) = true) ->
  exists w',
    translate_text E (JStr s) retries b w = (Ok JNull, w') /\
    events_since w w' = EvConstruct :: replicate retries (EvTranslate s) /\
    sleeps_of (events_since w w') = [] /\
    cache w' = cache w.
Proof.
  intros Hs Hmiss Hinit Hfalsy.
  rewrite (translate_text_miss E s retries b w Hs Hmiss Hinit).
  rewrite (attempts_falsy E s retries b 0 retries _ Hfalsy). wsimpl.
  eexists. split; [reflexivity|].
  rewrite (events_since_app w _ (EvConstruct :: replicate retries (EvTranslate s)))
    by (cbn [trace]; by rewrite <- app_assoc).
  split; [done|]. split; [|done].
  change (sleeps_of (EvConstruct :: ?l)) with (sleeps_of l).
  induction retries as [|n IHn]; [done|exact IHn].
Qed.

Lemma empty_answers_retried_without_sleep_witness :
  exists w',
    translate_text codec_env (JStr "Heart") 5 1 world0 = (Ok JNull, w') /\
    events_since world0 w' = EvConstruct :: replicate 5 (EvTranslate "Heart").
Proof.
  destruct (empty_answers_retried_without_sleep codec_env "Heart" 5 1 world0)
    as (w' & Hrun & Hev & _); try reflexivity.
  exists w'. split; [exact Hrun|exact Hev].
Defined.

(** ** The cache store, beyond the cache file *)

(** X3. [save_cache] touches two files only, the cache file and its
    temporary file: every other file is what it was in every state of the
    disk during the call and after it; and the cache in memory and the
    output are not touched. *)
Theorem save_cache_leaves_other_files (E : env) (path p : string) (w : world) :
  p <> path -> p <> path +:+ ".tmp" ->
  List.Forall (fun d => d !! p = disk w !! p)
    (disk_states (cache_dumps E (cache w)) path (save_fault E (n_save w))
                 (disk w)) /\
  disk (snd (save_cache E path w)) !! p = disk w !! p /\
  cache (snd (save_cache E path w)) = cache w /\
  fout (snd (save_cache E path w)) = fout w.
Proof.
  intros Hpath Htmp.
  assert (Hall : List.Forall (fun d => d !! p = disk w !! p)
    (disk_states (cache_dumps E (cache w)) path (save_fault E (n_save w))
                 (disk w))).
  { assert (Hw : forall k,
      List.Forall (fun d => d !! p = disk w !! p)
        (map (fun i => <[path +:+ ".tmp" :=
                           str_take i (cache_dumps E (cache w))]> (disk w))
             (seq 0 k))).
    { intros k. apply List.Forall_forall. intros d' [i [<- _]]%in_map_iff.
      by rewrite lookup_insert_ne. }
    unfold disk_states. destruct (save_fault E (n_save w)) as [[|k]|].
    - by constructor.
    - constructor; [done|apply Hw].
    - constructor; [done|]. apply List.Forall_app. split; [apply Hw|].
      constructor; [|constructor]. unfold os_replace.
      rewrite lookup_insert_eq.
      rewrite lookup_insert_ne, lookup_delete_ne, lookup_insert_ne; done. }
  split; [exact Hall|]. split; [|done].
  unfold save_cache. cbn [snd disk].
  rewrite List.Forall_forall in Hall.
  destruct (disk_states _ path _ (disk w)) as [|d0 l] eqn:Hst; [done|].
  apply Hall. rewrite <- Hst.
  assert (Hne : disk_states (cache_dumps E (cache w)) path
                  (save_fault E (n_save w)) (disk w) <> []) by (by rewrite Hst).
  rewrite Hst. apply (exists_last) in Hne as (l' & x & Hl). rewrite Hst in Hl.
  rewrite Hl, List.last_last. apply in_app_iff. right. by left.
Qed.


Lemma save_cache_leaves_other_files_witness :
  disk (snd (save_cache codec_env "cache.json"
               (mkWorld (JObj []) 0 0 0 "" {[ "out.jsonl" := "x" ]} [])))
    !! "out.jsonl" = Some "x".
Proof.
  destruct (save_cache_leaves_other_files codec_env "cache.json" "out.jsonl"
              (mkWorld (JObj []) 0 0 0 "" {[ "out.jsonl" := "x" ]} []))
    as (_ & H & _); [discriminate|discriminate|].
  rewrite H. reflexivity.
Defined.

Lemma str_take_all s : str_take (String.length s) s = s.
Proof. induction s as [|c r IH]; simpl; [done|by rewrite IH]. Qed.

(** X4. The temporary file after [save_cache]: gone when the save went
    through; as it was when [open] failed; and otherwise left behind with
    what had been written of the text when the fault struck, all of it when
    the fault struck at [os.replace]. *)
Theorem save_cache_temporary_file (E : env) (path : string) (w : world) :
  disk (snd (save_cache E path w)) !! (path +:+ ".tmp") =
  match save_fault E (n_save w) with
  | None => None
  | Some 0 => disk w !! (path +:+ ".tmp")
  | Some (S k) =>
      Some (str_take (Nat.min k (String.length (cache_dumps E (cache w))))
                     (cache_dumps E (cache w)))
  end.
Proof.
  pose proof (tmp_path_fresh path) as Hne.
  unfold save_cache. cbn [snd disk]. unfold disk_states.
  destruct (save_fault E (n_save w)) as [[|k]|].
  - done.
  - rewrite seq_S, map_app. cbn [map].
    rewrite app_comm_cons, List.last_last. by rewrite lookup_insert_eq.
  - rewrite app_comm_cons, List.last_last. unfold os_replace.
    rewrite lookup_insert_eq.
    rewrite lookup_insert_ne, lookup_delete_eq; done.
Qed.

(** X5. Saving and loading. When [json.load] reads back what [json.dump]
    wrote of the cache, [load_cache] after a [save_cache] that went through
    gives the cache that was saved; after a [save_cache] that a fault
    struck it gives what it gave before. *)
Theorem save_then_load (E : env) (path : string) (w : world) :
  cache_loads E (cache_dumps E (cache w)) = Some (cache w) ->
  load_cache E (disk (snd (save_cache E path w)) !! path) =
  match save_fault E (n_save w) with
  | None => cache w
  | Some _ => load_cache E (disk w !! path)
  end.
Proof.
  intros Hcodec. unfold save_cache. cbn [snd disk].
  rewrite disk_states_last.
  destruct (save_fault E (n_save w)); [done|].
  unfold load_cache. by rewrite Hcodec.
Qed.

Lemma save_then_load_witness :
  load_cache codec_env
    (disk (snd (save_cache codec_env "cache.json" world0)) !! "cache.json")
  = cache world0.
Proof.
  apply (save_then_load codec_env "cache.json" world0). reflexivity.
Defined.


(** ** The cache during a run *)

(** X6. The cache only grows. Whatever the provider and the input do, and
    however the run ends, [process] returns, and every entry that
    [load_cache] found is in the cache at the end with the value it had:
    nothing is removed and nothing is translated anew. *)
Theorem cache_only_grows (E : env) (input : string) (output : option string)
        (cache_path : string) (delay : Q) (resume : bool) (w : world) :
  exists r w',
    process E input output cache_path delay resume w = Some (r, w') /\
    forall s t,
      cache_get (load_cache E (disk w !! cache_path)) s = Some t ->
      cache_get (cache w') s = Some t.
Proof.
  destruct (process_result E input output cache_path delay resume w)
    as (r & w2 & _ & Hp).
  eexists _, _. split; [exact Hp|].
  apply grows_process in Hp as [Hc _]. intros s t Hs.
  by eapply cache_kept_get.
Qed.

(** X7. A text that is found in the cache that [load_cache] gave is never
    sent to the provider during the run: every text sent was looked for in
    that cache, by line 49, and not found. *)
Theorem cached_texts_never_sent (E : env) (input : string)
        (output : option string) (cache_path : string) (delay : Q)
        (resume : bool) (w : world) :
  exists r w',
    process E input output cache_path delay resume w = Some (r, w') /\
    forall s,
      In s (calls_of (events_since (start_world E cache_path w) w')) ->
      cache_in (load_cache E (disk w !! cache_path)) s = Some false /\
      cache_get (load_cache E (disk w !! cache_path)) s = None.
Proof.
  destruct (process_result E input output cache_path delay resume w)
    as (r & w2 & _ & Hp).
  eexists _, _. split; [exact Hp|].
  apply grows_process in Hp as [_ (evs & Hevs & Hcalls)].
  rewrite (events_since_app _ _ _ Hevs).
  rewrite List.Forall_forall in Hcalls. intros s Hs.
  split; [by apply Hcalls|]. by apply cache_in_get, Hcalls.
Qed.

(** ** What a run writes *)

Lemma jsonl_app E a b : jsonl E (a ++ b) = jsonl E a +:+ jsonl E b.
Proof.
  induction a as [|d a IH]; [done|].
  cbn [app jsonl]. by rewrite IH, !string_app_assoc.
Qed.

Lemma decoded_cons E t texts :
  decoded E (t :: texts) =
  match json_loads E t with
  | Some (JObj d) => d :: decoded E texts
  | _ => decoded E texts
  end.
Proof.
  unfold decoded. cbn [omap list_omap].
  by destruct (json_loads E t) as [[| | | | |d]|].
Qed.

Lemma cache_texts_store c c' s t :
  cache_texts c -> cache_store c s (JStr t) = Some c' -> cache_texts c'.
Proof.
  intros Hne. destruct c as [| | | | |d]; cbn; try done.
  intros [= <-] k v. cbn [cache_get].
  destruct (String.eqb_spec k s) as [->|Hk].
  - rewrite dict_get_set_eq. intros [= <-]. eauto.
  - rewrite dict_get_set_ne by done. apply (Hne k v).
Qed.

(** With strings for values in the cache, [translate_text] returns [None]
    or a string, and leaves such a cache. *)
Lemma translate_text_texts E v retries b w :
  cache_texts (cache w) ->
  let '(r, w') := translate_text E v retries b w in
  cache_texts (cache w') /\
  match r with
  | Ok x => x = JNull \/ exists t, x = JStr t
  | Raise _ => True
  end.
Proof.
  intros Hne. unfold translate_text.
  destruct (truthy v); cbn [negb]; [|munfold; auto].
  destruct v as [| | |s| |]; try by munfold.
  destruct (String.eqb (strip s) ""); [munfold; auto|].
  unfold bind at 1. unfold get_cache.
  destruct (cache_in (cache w) s) as [[|]|]; [| |by munfold].
  { destruct (cache_get (cache w) s) as [x|] eqn:Hx; [|by munfold].
    unfold ret. split; [done|]. right. by apply (Hne s). }
  unfold bind, new_translator.
  destruct (translator_init E (n_init w)); [done|].
  match goal with |- context [attempts E s retries b 0 retries ?w0] =>
    pose proof (attempts_frame E s retries b 0 retries w0) as H;
    destruct (attempts E s retries b 0 retries w0) as [r w']
  end.
  destruct H as (_ & _ & Hr). wsimpl.
  destruct r as [x|e]; [|by rewrite Hr].
  destruct Hr as [[-> ->]|(t & -> & Ht & Hst)]; [auto|].
  split; [by eapply cache_texts_store|]. right. eauto.
Qed.

Lemma keeps_texts_refl w : keeps_texts w w.
Proof. by intros H. Qed.

Lemma keeps_texts_trans w1 w2 w3 :
  keeps_texts w1 w2 -> keeps_texts w2 w3 -> keeps_texts w1 w3.
Proof. unfold keeps_texts. auto. Qed.

Lemma keeps_texts_same w w' : cache w' = cache w -> keeps_texts w w'.
Proof. intros Hc H. by rewrite Hc. Qed.

Lemma keeps_texts_translate_field E src dst d :
  preserves keeps_texts (translate_field E src dst d).
Proof.
  intros w r w' Hrun Hc. rewrite translate_field_eq in Hrun.
  pose proof (translate_text_texts E (get_or_none src d) 5 1 w Hc) as H.
  destruct (translate_text E (get_or_none src d) 5 1 w) as [[x|e] w1];
    destruct H as [H _]; by injection Hrun as _ <-.
Qed.

Lemma keeps_texts_sleep E d : preserves keeps_texts (sleep E d).
Proof.
  intros w r w' H.
  destruct (sleep_cases E d w) as [Hs|[e Hs]]; rewrite Hs in H;
    injection H as _ <-; by apply keeps_texts_same.
Qed.

Lemma keeps_texts_handle_record E cache_path delay resume ids obj c :
  preserves keeps_texts (handle_record E cache_path delay resume ids obj c).
Proof.
  unfold handle_record.
  destruct obj as [| | | | |d]; try (apply preserves_raise, keeps_texts_refl).
  apply (preserves_bind keeps_texts_trans).
  { intros w r w' H.
    pose proof (already_done_world resume ids (get_or_none "mesh_id" d) w) as Hw.
    rewrite H in Hw. cbn in Hw. subst. apply keeps_texts_refl. }
  intros [|]; [apply preserves_ret, keeps_texts_refl|].
  apply (preserves_bind keeps_texts_trans);
    [apply keeps_texts_translate_field|]. intros d1.
  apply (preserves_bind keeps_texts_trans); [apply keeps_texts_sleep|].
  intros _.
  apply (preserves_bind keeps_texts_trans);
    [apply keeps_texts_translate_field|]. intros d2.
  apply (preserves_bind keeps_texts_trans); [apply keeps_texts_sleep|].
  intros _. intros w r w' Hrun.
  change (bind (write_out E _) _) with (write_record E cache_path d2 c) in Hrun.
  destruct (write_record_cases E cache_path d2 c w)
    as [[e He]|[_ (evs & w1 & He & _ & Hc & _)]]; rewrite He in Hrun;
    injection Hrun as _ <-; by apply keeps_texts_same.
Qed.

(** A record made from a state whose cache holds strings for values has
    non-empty strings for what was added. *)
Lemma translates_text_from E delay w0 d d' :
  cache_texts (cache w0) -> translates E delay w0 d d' ->
  translated_text_from d d'.
Proof.
  intros Hc (r1 & w1 & r2 & w2 & H1 & H2 & ->).
  pose proof (translate_text_texts E (get_or_none "term_en" d) 5 1 w0 Hc) as N1.
  rewrite H1 in N1. destruct N1 as [Hc1 N1].
  assert (Hc1' : cache_texts (cache (snd (sleep E delay w1)))).
  { destruct (sleep_cases E delay w1) as [->|[e ->]]; exact Hc1. }
  pose proof (translate_text_texts E (get_or_none "definition" d) 5 1 _ Hc1')
    as N2.
  rewrite H2 in N2. destruct N2 as [_ N2].
  assert (Hvi : forall dst r d0,
    r = JNull \/ (exists t, r = JStr t) -> vi_text dst d0 (set_if dst r d0)).
  { intros dst r d0 [->|[t ->]]; [by left|].
    unfold set_if. destruct (truthy (JStr t)) eqn:Ht; [|by left].
    right. exists t. split; [|apply dict_get_set_eq].
    intros ->. done. }
  split; [|split].
  - intros k Hk1 Hk2. by rewrite !dict_get_set_if_ne.
  - destruct (Hvi "term_vi" r1 d N1) as [Hv|(t & Ht & Hv)].
    + left. by rewrite dict_get_set_if_ne.
    + right. exists t. by rewrite dict_get_set_if_ne.
  - destruct (Hvi "definition_vi" r2 (set_if "term_vi" r1 d) N2)
      as [Hv|(t & Ht & Hv)].
    + left. rewrite Hv. by rewrite dict_get_set_if_ne.
    + right. eauto.
Qed.

Lemma written_from_translated E delay T d d' :
  written_from E delay T d d' -> translated_from d d'.
Proof. intros (w0 & _ & H). by eapply translates_from. Qed.

Lemma written_from_text E delay (T : Prop) d d' :
  T -> written_from E delay T d d' -> translated_text_from d d'.
Proof. intros HT (w0 & Hc & H). eapply translates_text_from; eauto. Qed.

(** The records that the resume check lets through. *)
Lemma for_each_object_lines E cache_path delay resume ids (T : Prop)
      texts c w r w' :
  (T -> cache_texts (cache w)) ->
  for_each_object E cache_path delay resume ids texts c w = (r, w') ->
  exists kept' ds,
    kept' `prefix_of`
      List.filter (fun d => negb (skips resume ids d)) (decoded E texts) /\
    Forall2 (written_from E delay T) kept' ds /\
    fout w' = fout w +:+ jsonl E ds /\
    match r with
    | Ok c' =>
        kept' = List.filter (fun d => negb (skips resume ids d))
                            (decoded E texts) /\
        written c' = written c + length ds /\
        total_read c' = total_read c + length (decoded E texts) /\
        length (decoded E texts) = length (List.filter (decodes E) texts)
    | Raise _ => True
    end.
Proof.
  assert (Hnone : forall (l : list pydict) w0,
    exists kept' ds,
      kept' `prefix_of` l /\ Forall2 (written_from E delay T) kept' ds /\
      fout w0 = fout w0 +:+ jsonl E ds /\ kept' = [] /\ ds = []).
  { intros l w0. exists [], []. split; [apply prefix_nil|].
    split; [constructor|]. split; [|done]. cbn [jsonl].
    by rewrite string_app_empty_r. }
  revert c w. induction texts as [|t texts IH]; intros c w HT;
    cbn [for_each_object].
  { intros [= <- <-]. destruct (Hnone (@nil pydict) w)
      as (kept' & ds & Hp & Hf & Hout & -> & ->).
    exists [], []. split; [done|]. split; [done|]. split; [done|].
    cbn. repeat split; lia. }
  unfold bind, on_object. rewrite decoded_cons. cbn [List.filter].
  unfold decodes at 1.
  destruct (json_loads E t) as [obj|] eqn:Hload.
  2:{ munfold. intros Hrest.
      apply IH in Hrest as (kept' & ds & Hp & Hf & Hout & Hr); [|exact HT].
      exists kept', ds. split; [done|]. split; [done|]. split; [done|].
      exact Hr. }
  destruct obj as [| | | | |d];
    try (unfold handle_record, raise; intros [= <- <-];
         destruct (Hnone (List.filter (fun d => negb (skips resume ids d))
                            (decoded E texts)) w)
           as (kept' & ds & Hp & Hf & Hout & _);
         exists kept', ds; split; [done|]; split; [done|]; split; done).
  cbn [List.filter].
  pose proof (handle_record_shape E cache_path delay resume ids d
                (mkCounters (S (total_read c)) (written c)) w) as Hrec.
  pose proof (keeps_texts_handle_record E cache_path delay resume ids (JObj d)
                (mkCounters (S (total_read c)) (written c)) w) as Hkeep.
  destruct (handle_record E cache_path delay resume ids (JObj d)
              (mkCounters (S (total_read c)) (written c)) w)
    as [[c1|e] w1].
  2:{ intros [= <- <-].
      destruct (Hnone (if negb (skips resume ids d)
                       then d :: List.filter (fun d => negb (skips resume ids d))
                                             (decoded E texts)
                       else List.filter (fun d => negb (skips resume ids d))
                                        (decoded E texts)) w)
        as (kept' & ds & Hp & Hf & Hout & _).
      exists kept', ds. split; [done|]. split; [done|].
      split; [by rewrite Hrec|done]. }
  intros Hrest.
  assert (HT1 : T -> cache_texts (cache w1)).
  { intros Ht. by apply (Hkeep _ _ eq_refl), HT. }
  destruct (IH c1 w1 HT1 Hrest) as (kept' & ds & Hp & Hf & Hout & Hr).
  destruct (skips resume ids d); cbn [negb].
  - destruct Hrec as [-> ->]. exists kept', ds.
    split; [done|]. split; [done|]. split; [done|].
    destruct r; [|done]. cbn [total_read written length] in *.
    destruct Hr as (Hk & Hwr & Htr & Hlen).
    split; [done|]. split; [done|]. split; lia.
  - destruct Hrec as (d' & Hd & Hw1 & ->).
    exists (d :: kept'), (d' :: ds).
    split; [by apply prefix_cons|].
    split; [constructor; [by exists w|done]|].
    split.
    { rewrite Hout, Hw1. cbn [jsonl]. by rewrite !string_app_assoc. }
    destruct r; [|done]. cbn [total_read written length] in *.
    destruct Hr as (Hk & Hwr & Htr & Hlen).
    split; [by rewrite Hk|]. split; [lia|]. split; lia.
Qed.

(** The same of the run after the banner: a cache without a length ends
    it before anything is read. *)
Lemma run_objects_lines E cache_path delay resume ids texts w r w' :
  run_objects E cache_path delay resume ids texts w = (r, w') ->
  exists kept' ds,
    kept' `prefix_of`
      List.filter (fun d => negb (skips resume ids d)) (decoded E texts) /\
    Forall2 translated_from kept' ds /\
    (cache_texts (cache w) -> Forall2 translated_text_from kept' ds) /\
    fout w' = fout w +:+ jsonl E ds /\
    match r with
    | Ok c' =>
        kept' = List.filter (fun d => negb (skips resume ids d))
                            (decoded E texts) /\
        written c' = length ds /\
        total_read c' = length (decoded E texts)
    | Raise _ => True
    end.
Proof.
  destruct (sized (cache w)) eqn:Hs.
  - rewrite run_objects_sized by done. intros Hrun.
    apply (for_each_object_lines _ _ _ _ _ (cache_texts (cache w))) in Hrun
      as (kept' & ds & Hp & Hf & Hout & Hr); [|done].
    exists kept', ds. split; [done|]. split; [|split; [|split; [done|]]].
    + eapply Forall2_impl; [exact Hf|]. intros d d'.
      apply written_from_translated.
    + intros HT. eapply Forall2_impl; [exact Hf|]. intros d d'.
      by apply written_from_text.
    + destruct r; [|done]. cbn in Hr. tauto.
  - rewrite run_objects_unsized by done. intros [= <- <-].
    exists [], []. split; [apply prefix_nil|]. split; [constructor|].
    split; [constructor|].
    split; [|done]. cbn [jsonl]. by rewrite string_app_empty_r.
Qed.

(** X8. What a run leaves in the output. However [process] ends, what it
    has written is one line for each of the first records that the resume
    check lets through, in the order of the input, each line the record
    with its translations, which are non-empty strings when the values of
    the cache that was loaded are strings; when [process] returns normally
    these are all such records, [written] counts the lines and
    [total_read] the objects that decoded. *)
Theorem output_follows_input (E : env) (input : string)
        (output : option string) (cache_path : string) (delay : Q)
        (resume : bool) (w : world) :
  exists r w' kept ds,
    process E input output cache_path delay resume w = Some (r, w') /\
    kept `prefix_of`
      List.filter (fun d => negb (skips resume (existing_ids E resume output) d))
                  (decoded E (segments input scanner0)) /\
    Forall2 translated_from kept ds /\
    (cache_texts (load_cache E (disk w !! cache_path)) ->
     Forall2 translated_text_from kept ds) /\
    fout w' = jsonl E ds /\
    match r with
    | Ok c =>
        kept = List.filter
                 (fun d => negb (skips resume (existing_ids E resume output) d))
                 (decoded E (segments input scanner0)) /\
        written c = length ds /\
        total_read c = length (decoded E (segments input scanner0)) /\
        written c <= total_read c
    | Raise _ => True
    end.
Proof.
  destruct (process_result E input output cache_path delay resume w)
    as (r & w2 & Hloop & Hp).
  apply run_objects_lines in Hloop
    as (kept & ds & Hpre & Hf & Hft & Hout & Hr).
  eexists r, _, kept, ds. split; [exact Hp|]. split; [exact Hpre|].
  split; [exact Hf|]. split; [exact Hft|].
  assert (Hfout : fout w2 = jsonl E ds) by (by rewrite Hout).
  destruct r as [c|e]; [|done].
  unfold save_cache. cbn [snd fout]. split; [exact Hfout|].
  destruct Hr as (Hk & Hwr & Htr).
  split; [done|]. split; [done|]. split; [done|].
  rewrite Hwr, Htr. apply Forall2_length in Hf. rewrite <- Hf, Hk.
  apply List.filter_length_le.
Qed.

(** X9. Without resume mode nothing is skipped and the old output does not
    count: a run that returns normally has written every object that
    decoded, one line each in the order of the input, and the output file
    is what this run wrote. What a line adds to its record are non-empty
    strings when the values of the cache that was loaded are strings. *)
Theorem no_resume_writes_every_record (E : env) (input : string)
        (output : option string) (cache_path : string) (delay : Q)
        (w : world) (c : counters) (w' : world) :
  process E input output cache_path delay false w = Some (Ok c, w') ->
  written c = total_read c /\
  exists ds,
    Forall2 translated_from (decoded E (segments input scanner0)) ds /\
    (cache_texts (load_cache E (disk w !! cache_path)) ->
     Forall2 translated_text_from (decoded E (segments input scanner0)) ds) /\
    output_file false output w' = jsonl E ds.
Proof.
  intros Hp.
  assert (Hall : forall l : list pydict,
            List.filter
              (fun d => negb (skips false (existing_ids E false output) d)) l
            = l).
  { induction l as [|d l IH]; [done|]. cbn [List.filter].
    change (skips false (existing_ids E false output) d) with false.
    cbn [negb]. by rewrite IH. }
  destruct (process_result E input output cache_path delay false w)
    as (r & w2 & Hloop & Hp').
  apply run_objects_lines in Hloop
    as (kept & ds & _ & Hf & Hft & Hout & Hr).
  assert (Hfout : fout w2 = jsonl E ds) by (by rewrite Hout).
  rewrite Hp in Hp'. injection Hp' as <- ->.
  destruct Hr as (Hk & Hwr & Htr).
  rewrite Hall in Hk. subst kept. split.
  - rewrite Hwr, Htr. symmetry. by apply Forall2_length in Hf.
  - exists ds. split; [exact Hf|]. split; [exact Hft|].
    unfold output_file, save_cache.
    cbn [snd fout]. by rewrite string_nil_app.
Qed.

Lemma no_resume_writes_every_record_witness :
  exists c w',
    process (sample_env builds (flaky 0 "Tim")) input_ABC (Some output_AB)
            "cache.json" 0 false world0 = Some (Ok c, w') /\
    written c = total_read c.
Proof.
  destruct (process (sample_env builds (flaky 0 "Tim")) input_ABC
              (Some output_AB) "cache.json" 0 false world0)
    as [[[c|e] w']|] eqn:Hp.
  - exists c, w'. split; [reflexivity|].
    apply (no_resume_writes_every_record _ _ _ _ _ _ _ _ Hp).
  - vm_compute in Hp. discriminate.
  - vm_compute in Hp. discriminate.
Defined.

(** ** How often the cache is saved *)

Lemma div_succ_50 n :
  S n / 50 = n / 50 + (if S n mod 50 =? 0 then 1 else 0).
Proof.
  pose proof (Nat.div_mod_eq n 50) as Hn.
  pose proof (Nat.mod_upper_bound n 50 ltac:(lia)) as Hr.
  destruct (Nat.eq_dec (n mod 50) 49) as [H49|H49].
  - assert (Hd : S n / 50 = S (n / 50)).
    { symmetry. apply (Nat.div_unique (S n) 50 (S (n / 50)) 0); lia. }
    assert (Hm : S n mod 50 = 0).
    { symmetry. apply (Nat.mod_unique (S n) 50 (S (n / 50)) 0); lia. }
    rewrite Hd, Hm. cbn. lia.
  - assert (Hd : S n / 50 = n / 50).
    { symmetry. apply (Nat.div_unique (S n) 50 (n / 50) (S (n mod 50))); lia. }
    assert (Hm : S n mod 50 = S (n mod 50)).
    { symmetry. apply (Nat.mod_unique (S n) 50 (n / 50) (S (n mod 50))); lia. }
    rewrite Hd, Hm. cbn. lia.
Qed.

Lemma same_saves_translate_field E src dst d :
  preserves same_saves (translate_field E src dst d).
Proof.
  intros w r w'. rewrite translate_field_eq.
  pose proof (translate_text_frame E (get_or_none src d) 5 1 w) as Hf.
  destruct (translate_text E (get_or_none src d) 5 1 w) as [[x|e] w1];
    destruct Hf as ((_ & _ & Hs) & _); by intros [= _ <-].
Qed.

Lemma same_saves_sleep E d : preserves same_saves (sleep E d).
Proof.
  intros w r w' H.
  destruct (sleep_cases E d w) as [Hs|[e Hs]]; rewrite Hs in H;
    by injection H as _ <-.
Qed.

Lemma same_saves_already_done resume ids v :
  preserves same_saves (already_done resume ids v).
Proof.
  intros w r w' H. pose proof (already_done_world resume ids v w) as Hw.
  rewrite H in Hw. cbn in Hw. by subst.
Qed.

Lemma saves_handle_record E cache_path delay resume ids obj c :
  ensures (saves_by_fifty c)
          (handle_record E cache_path delay resume ids obj c).
Proof.
  assert (Hstep : forall w w1 r w',
    same_saves w w1 -> saves_by_fifty c w1 r w' -> saves_by_fifty c w r w').
  { unfold same_saves, saves_by_fifty. intros w w1 [c'|e] w' Hs; rewrite Hs; done. }
  assert (Hraise : forall w w' e,
    same_saves w w' -> saves_by_fifty c w (Raise e) w').
  { unfold same_saves, saves_by_fifty. by intros. }
  unfold handle_record.
  destruct obj as [| | | | |d]; try (intros w r w' [= <- <-]; done).
  apply (ensures_bind same_saves); [apply same_saves_already_done| |done..].
  intros [|]; [intros w r w' [= <- <-]; unfold saves_by_fifty; lia|].
  apply (ensures_bind same_saves); [apply same_saves_translate_field| |done..].
  intros d1.
  apply (ensures_bind same_saves); [apply same_saves_sleep| |done..].
  intros _.
  apply (ensures_bind same_saves); [apply same_saves_translate_field| |done..].
  intros d2.
  apply (ensures_bind same_saves); [apply same_saves_sleep| |done..].
  intros _. intros w r w'. unfold bind at 1.
  destruct (write_out_cases E (json_dumps E (JObj d2) +:+ newline) w)
    as [[_ ->]|[e ->]]; [|by intros [= <- <-]].
  munfold. cbn zeta. wsimpl.
  pose proof (div_succ_50 (written c)) as Hdiv.
  destruct (S (written c) mod 50 =? 0); unfold save_cache;
    cbn beta iota zeta; intros [= <- <-]; unfold saves_by_fifty; wsimpl; lia.
Qed.

Lemma saves_for_each_object E cache_path delay resume ids texts c w r w' :
  for_each_object E cache_path delay resume ids texts c w = (r, w') ->
  match r with
  | Ok c' => n_save w' + written c / 50 = n_save w + written c' / 50 /\
             written c <= written c'
  | Raise _ => n_save w <= n_save w'
  end.
Proof.
  revert c w. induction texts as [|t texts IH]; intros c w;
    cbn [for_each_object].
  { by intros [= <- <-]. }
  unfold bind.
  destruct (on_object E cache_path delay resume ids t c w)
    as [[c1|e] w1] eqn:Hobj.
  - assert (H1 : n_save w1 + written c / 50 = n_save w + written c1 / 50 /\
                 written c <= written c1).
    { revert Hobj. unfold on_object. destruct (json_loads E t).
      - intros H%saves_handle_record. exact H.
      - munfold. by intros [= <- <-]. }
    destruct H1 as [H1 Hle].
    pose proof (Nat.Div0.div_le_mono _ _ 50 Hle) as Hdiv.
    intros Hrest. apply IH in Hrest. destruct r; lia.
  - intros [= <- <-]. revert Hobj. unfold on_object.
    destruct (json_loads E t); [|by munfold].
    intros H%saves_handle_record. unfold saves_by_fifty in H. lia.
Qed.

(** X10. The cache is saved every fifty records written and once at the
    end: a run that returns normally with [written] records written has
    called [save_cache] [written / 50 + 1] times. *)
Theorem cache_saved_every_fifty (E : env) (input : string)
        (output : option string) (cache_path : string) (delay : Q)
        (resume : bool) (w : world) (c : counters) (w' : world) :
  process E input output cache_path delay resume w = Some (Ok c, w') ->
  n_save w' = n_save w + written c / 50 + 1.
Proof.
  destruct (process_result E input output cache_path delay resume w)
    as (r & w2 & Hloop & ->).
  intros [= -> <-].
  destruct (sized (cache (start_world E cache_path w))) eqn:Hs.
  2:{ by rewrite run_objects_unsized in Hloop. }
  rewrite run_objects_sized in Hloop by done.
  apply saves_for_each_object in Hloop as [Hloop _].
  unfold save_cache. wsimpl. cbn [snd n_save counters0 written] in *.
  change (0 / 50) with 0 in Hloop.
  change (n_save (start_world E cache_path w)) with (n_save w) in Hloop. lia.
Qed.

Lemma cache_saved_every_fifty_witness :
  exists c w',
    process (sample_env builds (flaky 0 "Tim")) input_ABC None "cache.json" 0
            true world0 = Some (Ok c, w') /\
    n_save w' = n_save world0 + written c / 50 + 1.
Proof.
  destruct (process (sample_env builds (flaky 0 "Tim")) input_ABC None
              "cache.json" 0 true world0)
    as [[[c|e] w']|] eqn:Hp.
  - exists c, w'. split; [reflexivity|].
    apply (cache_saved_every_fifty _ _ _ _ _ _ _ _ _ Hp).
  - vm_compute in Hp. discriminate.
  - vm_compute in Hp. discriminate.
Defined.

Lemma save_removes_tmp E path w :
  save_fault E (n_save w) = None ->
  disk (snd (save_cache E path w)) !! (path +:+ ".tmp") = None.
Proof.
  intros Hf. pose proof (tmp_path_fresh path) as Hne.
  unfold save_cache. cbn [snd disk]. unfold disk_states. rewrite Hf.
  rewrite app_comm_cons, List.last_last. unfold os_replace.
  rewrite lookup_insert_eq.
  rewrite lookup_insert_ne, lookup_delete_eq; done.
Qed.

(** X11. When [process] returns normally and no fault struck its last
    [save_cache], the cache file holds the text of the cache as it is at
    the end of the run, and no temporary file is left. *)
Theorem final_cache_is_persisted (E : env) (input : string)
        (output : option string) (cache_path : string) (delay : Q)
        (resume : bool) (w : world) (c : counters) (w' : world) :
  process E input output cache_path delay resume w = Some (Ok c, w') ->
  save_fault E (n_save w' - 1) = None ->
  disk w' !! cache_path = Some (cache_dumps E (cache w')) /\
  disk w' !! (cache_path +:+ ".tmp") = None.
Proof.
  destruct (process_result E input output cache_path delay resume w)
    as (r & w2 & _ & ->).
  intros [= -> <-]. wsimpl.
  replace (S (n_save w2) - 1) with (n_save w2) by lia.
  intros Hfault. rewrite Hfault. split.
  - by rewrite disk_states_last.
  - pose proof (save_removes_tmp E cache_path w2 Hfault) as Ht.
    unfold save_cache in Ht. cbn [snd disk] in Ht.
    by rewrite Hfault in Ht.
Qed.

Lemma final_cache_is_persisted_witness :
  exists c w',
    process (sample_env builds (flaky 0 "Tim")) input_ABC None "cache.json" 0
            true world0 = Some (Ok c, w') /\
    disk w' !! "cache.json"
    = Some (cache_dumps (sample_env builds (flaky 0 "Tim")) (cache w')).
Proof.
  destruct (process (sample_env builds (flaky 0 "Tim")) input_ABC None
              "cache.json" 0 true world0)
    as [[[c|e] w']|] eqn:Hp.
  - exists c, w'. split; [reflexivity|].
    apply (final_cache_is_persisted _ _ _ _ _ _ _ _ _ Hp). reflexivity.
  - vm_compute in Hp. discriminate.
  - vm_compute in Hp. discriminate.
Defined.


(** ** Edges of the reader and of the loop *)

(** X12. An input without an opening bracket, such as an empty file, a
    single object or a file of JSON lines, is read to its end without an
    object being found: when the cache that was loaded has a length,
    [process] returns normally with nothing read and nothing written,
    having only loaded and saved the cache; when it is [None], a [bool] or
    a number, the banner of line 76 raises [TypeError] and nothing else is
    done. *)
Theorem input_without_bracket_reads_nothing (E : env) (input : string)
        (output : option string) (cache_path : string) (delay : Q)
        (resume : bool) (w : world) :
  lacks "[" input = true ->
  process E input output cache_path delay resume w =
  Some (if sized (load_cache E (disk w !! cache_path))
        then (Ok counters0,
              snd (save_cache E cache_path (start_world E cache_path w)))
        else (Raise TypeError, start_world E cache_path w)) /\
  fout (snd (save_cache E cache_path (start_world E cache_path w))) = "" /\
  fout (start_world E cache_path w) = "".
Proof.
  intros Hno. split; [|done].
  destruct (process_result E input output cache_path delay resume w)
    as (r & w2 & Hloop & ->).
  destruct (scan_before_array input Hno) as [Hseg _].
  rewrite Hseg in Hloop.
  change (load_cache E (disk w !! cache_path))
    with (cache (start_world E cache_path w)).
  destruct (sized (cache (start_world E cache_path w))) eqn:Hs.
  - rewrite run_objects_sized in Hloop by done.
    cbn [for_each_object] in Hloop. by injection Hloop as <- <-.
  - rewrite run_objects_unsized in Hloop by done. by injection Hloop as <- <-.
Qed.

Lemma input_without_bracket_reads_nothing_witness :
  process (sample_env builds down) output_AB None "cache.json" 0 true world0
  = Some (Ok counters0,
          snd (save_cache (sample_env builds down) "cache.json"
                 (start_world (sample_env builds down) "cache.json" world0)))
  /\
  process (sample_env_with (Some JNull) builds down) output_AB None
          "cache.json" 0 true world_on_disk
  = Some (Raise TypeError,
          start_world (sample_env_with (Some JNull) builds down) "cache.json"
                      world_on_disk).
Proof.
  assert (Hno : lacks "[" output_AB = true) by (vm_compute; reflexivity).
  split.
  - rewrite (proj1 (input_without_bracket_reads_nothing
                      (sample_env builds down) output_AB None "cache.json" 0
                      true world0 Hno)).
    reflexivity.
  - rewrite (proj1 (input_without_bracket_reads_nothing
                      (sample_env_with (Some JNull) builds down) output_AB
                      None "cache.json" 0 true world_on_disk Hno)).
    reflexivity.
Defined.

(** X13. Reading by chunks loses nothing: with enough iterations the loop
    over the chunks of 65536 characters ends, and does what the loop over
    the characters of the whole input does, wherever the chunks cut the
    objects. *)
Theorem chunks_cut_nothing (E : env) (cache_path : string) (delay : Q)
        (resume : bool) (ids : gset pykey) (fuel : nat) (input : string)
        (st : scanner * counters) (w : world) :
  String.length input < fuel ->
  read_loop E fuel cache_path delay resume ids input st w =
  Some (for_chars E cache_path delay resume ids input st w).
Proof. apply read_loop_chars. Qed.

Lemma chunks_cut_nothing_witness :
  read_loop (sample_env builds down) 200 "cache.json" 0 true ∅ input_brace
            (scanner0, counters0) world0
  = Some (for_chars (sample_env builds down) "cache.json" 0 true ∅
                    input_brace (scanner0, counters0) world0).
Proof.
  apply chunks_cut_nothing. vm_compute. lia.
Defined.

(** A field that needs no provider leaves the state as it is. *)
Lemma translate_text_settled E v w :
  settled (cache w) v -> exists r, translate_text E v 5 1 w = (Ok r, w).
Proof.
  intros Hv. destruct (truthy v) eqn:Ht.
  2:{ exists JNull. by apply translate_text_falsy. }
  destruct v as [| | |s| |]; cbn [settled] in Hv; try congruence.
  destruct (all_space s) eqn:Hs.
  - exists JNull. unfold translate_text. rewrite Ht. cbn [negb].
    by rewrite (all_space_strip s Hs).
  - destruct Hv as [Hv|[x Hx]]; [done|].
    exists x. by apply translate_text_hit.
Qed.

(** X14. A record with nothing to translate still waits: when each of
    [term_en] and [definition] is missing, falsy, blank or a key of the
    cache, the delay is one that [time.sleep] takes and the output takes
    the line, the body of the loop builds no client and calls no provider,
    and yet sleeps [delay] twice before it writes the record. *)
Theorem nothing_to_translate_still_waits (E : env) (cache_path : string)
        (delay : Q) (resume : bool) (ids : gset pykey) (d : pydict)
        (c : counters) (w : world) :
  settled (cache w) (get_or_none "term_en" d) ->
  settled (cache w) (get_or_none "definition" d) ->
  can_sleep delay -> writes_ok E ->
  already_done resume ids (get_or_none "mesh_id" d) w = (Ok false, w) ->
  exists w',
    handle_record E cache_path delay resume ids (JObj d) c w =
      (Ok (mkCounters (total_read c) (S (written c))), w') /\
    calls_of (events_since w w') = [] /\
    sleeps_of (events_since w w') = [delay; delay] /\
    n_init w' = n_init w /\ n_call w' = n_call w /\ cache w' = cache w.
Proof.
  intros Hterm Hdef Hdelay Hwr Hskip.
  destruct (translate_text_settled E _ w Hterm) as [r1 H1].
  destruct (translate_text_settled E (get_or_none "definition" d)
              (logged w [EvSleep delay]) Hdef) as [r2 H2].
  rewrite (handle_record_steps E cache_path delay resume ids d c w r1 w r2 _
             Hskip H1 Hdelay H2).
  destruct (write_record_ok E cache_path
              (set_if "definition_vi" r2 (set_if "term_vi" r1 d)) c
              (logged (logged w [EvSleep delay]) [EvSleep delay]) (Hwr _ _))
    as (evs & w' & -> & _ & Hc & Hni & Hnc & Htr & Hcalls & Hsl).
  exists w'. split; [reflexivity|].
  rewrite (events_since_app w w' ([EvSleep delay; EvSleep delay] ++ evs))
    by (rewrite Htr; cbn [logged trace]; by rewrite <- !app_assoc).
  rewrite calls_of_app, sleeps_of_app, Hcalls, Hsl. done.
Qed.

Lemma nothing_to_translate_still_waits_witness :
  exists w',
    handle_record (sample_env builds down) "cache.json" (1 # 2) false ∅
                  (JObj rec_C) counters0
                  (world_with (JObj [("Heart", JStr "Tim")]))
      = (Ok (mkCounters (total_read counters0) (S (written counters0))), w') /\
    calls_of (events_since (world_with (JObj [("Heart", JStr "Tim")])) w') = [] /\
    sleeps_of (events_since (world_with (JObj [("Heart", JStr "Tim")])) w')
      = [1 # 2; 1 # 2] /\
    n_init w' = n_init (world_with (JObj [("Heart", JStr "Tim")])) /\
    n_call w' = n_call (world_with (JObj [("Heart", JStr "Tim")])) /\
    cache w' = cache (world_with (JObj [("Heart", JStr "Tim")])).
Proof.
  apply (nothing_to_translate_still_waits (sample_env builds down)
           "cache.json" (1 # 2) false ∅ rec_C counters0
           (world_with (JObj [("Heart", JStr "Tim")]))).
  - right. exists (JStr "Tim"). reflexivity.
  - reflexivity.
  - split; discriminate.
  - intros out text. reflexivity.
  - reflexivity.
Defined.

(** ** One text in both fields *)

(** X15. When [term_en] and [definition] hold the same text, not blank and
    not a key of the cache, a dict, and the first call of the provider
    answers with a translation, the body of the loop builds one client and
    calls the provider once: the second field is served by the cache entry
    the first one made, and both [term_vi] and [definition_vi] get the
    translation. The delay is one that [time.sleep] takes, and the output
    takes the line. *)
Theorem repeated_text_translated_once (E : env) (cache_path : string)
        (delay : Q) (resume : bool) (ids : gset pykey) (d : pydict)
        (s t : string) (c : counters) (w : world) :
  get_or_none "term_en" d = JStr s ->
  get_or_none "definition" d = JStr s ->
  all_space s = false ->
  is_dict (cache w) = true -> cache_get (cache w) s = None ->
  translator_init E (n_init w) = None ->
  translator_translate E (n_call w) s = Returns (Some t) -> t <> "" ->
  can_sleep delay -> writes_ok E ->
  already_done resume ids (get_or_none "mesh_id" d) w = (Ok false, w) ->
  exists w',
    handle_record E cache_path delay resume ids (JObj d) c w =
      (Ok (mkCounters (total_read c) (S (written c))), w') /\
    calls_of (events_since w w') = [s] /\
    n_init w' = S (n_init w) /\ n_call w' = S (n_call w) /\
    cache_store (cache w) s (JStr t) = Some (cache w') /\
    fout w' = fout w +:+
      json_dumps E (JObj (dict_set "definition_vi" (JStr t)
                            (dict_set "term_vi" (JStr t) d))) +:+ newline.
Proof.
  intros Hterm Hdef Hs Hdict Hmiss Hinit Hresp Ht Hdelay Hwr Hskip.
  destruct (cache w) as [| | | | |m] eqn:Hc; try done. cbn in Hmiss.
  assert (Htruthy : truthy (JStr t) = true).
  { cbn. apply String.eqb_neq in Ht. by rewrite Ht. }
  pose proof (translate_text_first_try E s t 4 1 w
                (JObj (dict_set s (JStr t) m)) Hs) as H1.
  rewrite Hc, cache_in_dict, Hmiss in H1.
  specialize (H1 eq_refl eq_refl Hinit Hresp Ht). rewrite <- Hterm in H1 at 1.
  match type of H1 with _ = (_, ?w1) =>
    pose proof (translate_text_hit E s (JStr t) 5 1
                  (logged w1 [EvSleep delay]) Hs) as H2
  end.
  cbn [logged cache cache_get] in H2. rewrite dict_get_set_eq in H2.
  specialize (H2 eq_refl). rewrite <- Hdef in H2 at 1.
  rewrite (handle_record_steps E cache_path delay resume ids d c w _ _ _ _
             Hskip H1 Hdelay H2).
  unfold set_if. rewrite Htruthy.
  match goal with |- context [write_record E cache_path ?d2 c ?w0] =>
    destruct (write_record_ok E cache_path d2 c w0 (Hwr _ _))
      as (evs & w' & -> & Hfout & Hc' & Hni & Hnc & Htr & Hcalls & _)
  end.
  exists w'. split; [reflexivity|].
  cbn [logged fout cache n_init n_call trace] in *.
  rewrite Hfout, Hc', Hni, Hnc. split; [|done].
  rewrite (events_since_app w w'
     ([EvConstruct; EvTranslate s; EvSleep delay; EvSleep delay] ++ evs)).
  - rewrite calls_of_app, Hcalls. reflexivity.
  - rewrite Htr. by rewrite <- !app_assoc.
Qed.

Lemma repeated_text_translated_once_witness :
  exists w',
    handle_record (sample_env builds (flaky 0 "Tim")) "cache.json" 0 false ∅
      (JObj rec_twice) counters0 world0 =
      (Ok (mkCounters (total_read counters0) (S (written counters0))), w') /\
    calls_of (events_since world0 w') = ["Heart"] /\
    n_init w' = S (n_init world0) /\ n_call w' = S (n_call world0) /\
    cache_store (cache world0) "Heart" (JStr "Tim") = Some (cache w') /\
    fout w' = fout world0 +:+
      json_dumps (sample_env builds (flaky 0 "Tim"))
        (JObj (dict_set "definition_vi" (JStr "Tim")
                 (dict_set "term_vi" (JStr "Tim") rec_twice)))
      +:+ newline.
Proof.
  apply (repeated_text_translated_once (sample_env builds (flaky 0 "Tim"))
           "cache.json" 0 false ∅ rec_twice "Heart" "Tim" counters0 world0).
  - reflexivity.
  - reflexivity.
  - reflexivity.
  - reflexivity.
  - reflexivity.
  - reflexivity.
  - reflexivity.
  - discriminate.
  - split; discriminate.
  - intros out text. reflexivity.
  - reflexivity.
Defined.

(** ** The identifiers of an output file *)

Lemma file_lines_from_line acc l rest :
  one_line l = true ->
  file_lines_from acc (l +:+ newline +:+ rest) =
  (acc +:+ l +:+ newline) :: file_lines_from "" rest.
Proof.
  revert acc. induction l as [|ch l IH]; intros acc Hl.
  - rewrite !string_nil_app. unfold newline at 1.
    rewrite string_cons_app, string_nil_app. cbn [file_lines_from].
    replace (Ascii.eqb LF LF) with true by (symmetry; apply Ascii.eqb_refl).
    reflexivity.
  - unfold one_line in Hl. cbn [lacks] in Hl.
    apply andb_prop in Hl as [H1 H2].
    apply andb_prop in H1 as [Hlf H1]. apply andb_prop in H2 as [Hcr H2].
    rewrite string_cons_app. cbn [file_lines_from].
    apply negb_true_iff in Hlf, Hcr.
    rewrite Hlf, Hcr. rewrite IH by (unfold one_line; by rewrite H1, H2).
    f_equal. by rewrite string_app_assoc.
Qed.

Lemma file_lines_jsonl E ds :
  List.Forall (fun d => one_line (json_dumps E (JObj d)) = true) ds ->
  file_lines (jsonl E ds) =
  map (fun d => json_dumps E (JObj d) +:+ newline) ds.
Proof.
  unfold file_lines. induction 1 as [|d ds Hd _ IH]; [reflexivity|].
  cbn [jsonl map]. rewrite (file_lines_from_line "" _ _ Hd).
  by rewrite string_nil_app, IH.
Qed.

(** X16. Reading back what was written: when the text [json.dumps] gives for
    each record of [ds] has no end of line in it and decodes to the record,
    the identifiers collected from an output file holding the lines of [ds]
    are exactly the hashable [mesh_id] values of the records of [ds]. *)
Theorem written_ids_are_collected (E : env) (ds : list pydict) (k : pykey) :
  List.Forall (fun d => one_line (json_dumps E (JObj d)) = true /\
                   json_loads E (json_dumps E (JObj d) +:+ newline)
                   = Some (JObj d)) ds ->
  k ∈ existing_ids E true (Some (jsonl E ds)) <->
  exists d v, In d ds /\ dict_get "mesh_id" d = Some v /\ py_key v = Some k.
Proof.
  intros Hds. rewrite existing_ids_lines.
  rewrite file_lines_jsonl
    by (eapply List.Forall_impl; [|exact Hds]; by intros ? [? _]).
  rewrite List.Forall_forall in Hds. split.
  - intros (line & d & v & Hin & Hload & Hv & Hk).
    apply in_map_iff in Hin as (d0 & <- & Hin).
    destruct (Hds d0 Hin) as [_ Hback]. rewrite Hback in Hload.
    injection Hload as ->. eauto.
  - intros (d & v & Hin & Hv & Hk).
    exists (json_dumps E (JObj d) +:+ newline), d, v.
    split; [|split; [exact (proj2 (Hds d Hin))|done]].
    apply in_map_iff. eauto.
Qed.

Lemma written_ids_are_collected_witness :
  KStr "B" ∈ existing_ids codec_env true (Some (jsonl codec_env [rec_A; rec_B]))
  <->
  exists d v, In d [rec_A; rec_B] /\ dict_get "mesh_id" d = Some v /\
              py_key v = Some (KStr "B").
Proof.
  apply (written_ids_are_collected codec_env [rec_A; rec_B] (KStr "B")).
  repeat constructor.
Defined.

(** X17. Which identifiers a resumed run knows: an identifier is in the set
    exactly when some line of the existing output decodes to a dict whose
    [mesh_id] is that hashable value. Lines that do not decode, values that
    are no dict, dicts without [mesh_id] and unhashable identifiers add
    nothing, and none of them ends the reading. *)
Theorem resume_set_is_the_decodable_lines (E : env) (old : string)
        (k : pykey) :
  (k ∈ existing_ids E true (Some old) <->
   exists line d v,
     In line (file_lines old) /\ json_loads E line = Some (JObj d) /\
     dict_get "mesh_id" d = Some v /\ py_key v = Some k) /\
  existing_ids E false (Some old) = ∅ /\
  existing_ids E true None = ∅.
Proof.
  split; [apply existing_ids_lines|]. by split.
Qed.



(** X19. What [translate_text] returns is in the cache: after a call that
    returned a value other than [None], the text is a string, not blank,
    and the cache, a dict, maps it to the value returned. The call writes
    to no file: the output and the disk are as they were, and the cache is
    not saved. *)
Theorem returned_translation_is_cached (E : env) (v : json) (retries : nat)
        (b : Q) (r : json) (w w' : world) :
  translate_text E v retries b w = (Ok r, w') -> r <> JNull ->
  (exists s, v = JStr s /\ all_space s = false /\
             cache_get (cache w') s = Some r) /\
  fout w' = fout w /\ disk w' = disk w /\ n_save w' = n_save w.
Proof.
  intros Hrun Hr. pose proof (translate_text_frame E v retries b w) as H.
  rewrite Hrun in H. destruct H as (Hfiles & _ & Hc).
  split; [|exact Hfiles]. by destruct r.
Qed.

Lemma returned_translation_is_cached_witness :
  exists w',
    translate_text (sample_env builds (flaky 2 "Tim")) (JStr "Heart") 5 1
                   world0 = (Ok (JStr "Tim"), w') /\
    cache_get (cache w') "Heart" = Some (JStr "Tim").
Proof.
  destruct (translate_text (sample_env builds (flaky 2 "Tim")) (JStr "Heart")
              5 1 world0) as [[r|e] w'] eqn:Hrun.
  - assert (Hr : r = JStr "Tim").
    { vm_compute in Hrun. by injection Hrun as -> _. }
    subst r. exists w'. split; [reflexivity|].
    assert (Hne : JStr "Tim" <> JNull) by discriminate.
    destruct (returned_translation_is_cached _ _ _ _ _ _ _ Hrun Hne)
      as [(s & [= <-] & _ & Hc) _].
    exact Hc.
  - vm_compute in Hrun. discriminate.
Defined.

